(** * NetScout: hotspot resolver, password retrieval policy and ranking view

    A shallow embedding of [services/geminiService.ts] ([findNearbyWiFi],
    [retrievePasswordEthically]) and of the [sortedHotspots] view of
    [App.tsx], with the properties of the hotspot pipeline proved about it.

    The raw records come out of [JSON.parse] and are typed [any] in the
    source, so they are modelled as dynamically typed JavaScript values with
    the language's coercions ([||], template literals, arithmetic).  *)

From Stdlib Require Import QArith Qround DecimalString Ascii String.
From stdpp Require Import gmap strings list sorting.

Set Warnings "-register-all".
Local Open Scope string_scope.

(** ** JavaScript numbers

    A Number is NaN, an infinity or a finite value.  Finite values are exact
    rationals: IEEE rounding and the sign of zero are abstracted away (the
    program only divides by the literal 10). *)

Inductive JsNum : Type :=
| NaN
| NegInf
| Fin (q : Q)
| PosInf.

Definition num_of_Z (z : Z) : JsNum := Fin (inject_Z z).

(** ToBoolean on a Number: NaN and zero are falsy. *)
Definition num_truthy (n : JsNum) : bool :=
  match n with
  | NaN => false
  | Fin q => negb (Qeq_bool q 0)
  | NegInf | PosInf => true
  end.

Definition num_opp (n : JsNum) : JsNum :=
  match n with
  | NaN => NaN
  | NegInf => PosInf
  | Fin q => Fin (- q)
  | PosInf => NegInf
  end.

(** [a - b] *)
Definition num_sub (a b : JsNum) : JsNum :=
  match a, b with
  | NaN, _ | _, NaN => NaN
  | Fin x, Fin y => Fin (x - y)
  | PosInf, PosInf | NegInf, NegInf => NaN
  | PosInf, _ | _, NegInf => PosInf
  | NegInf, _ | _, PosInf => NegInf
  end.

(** [a * b] *)
Definition num_mul (a b : JsNum) : JsNum :=
  match a, b with
  | NaN, _ | _, NaN => NaN
  | Fin x, Fin y => Fin (x * y)
  | Fin x, ((PosInf | NegInf) as i) | ((PosInf | NegInf) as i), Fin x =>
      match (x ?= 0)%Q with
      | Eq => NaN
      | Gt => i
      | Lt => num_opp i
      end
  | PosInf, PosInf | NegInf, NegInf => PosInf
  | PosInf, NegInf | NegInf, PosInf => NegInf
  end.

(** [a / b] *)
Definition num_div (a b : JsNum) : JsNum :=
  match a, b with
  | NaN, _ | _, NaN => NaN
  | Fin x, Fin y =>
      if Qeq_bool y 0
      then match (x ?= 0)%Q with Eq => NaN | Gt => PosInf | Lt => NegInf end
      else Fin (x / y)
  | Fin _, (PosInf | NegInf) => Fin 0
  | (PosInf | NegInf), (PosInf | NegInf) => NaN
  | ((PosInf | NegInf) as i), Fin y =>
      match (y ?= 0)%Q with Lt => num_opp i | _ => i end
  end.

Definition Math_floor (n : JsNum) : JsNum :=
  match n with
  | Fin q => num_of_Z (Qfloor q)
  | _ => n
  end.

(** [Math.max(a, b)]: NaN when either argument is. *)
Definition Math_max (a b : JsNum) : JsNum :=
  match a, b with
  | NaN, _ | _, NaN => NaN
  | PosInf, _ | _, PosInf => PosInf
  | NegInf, n | n, NegInf => n
  | Fin x, Fin y => if Qle_bool x y then Fin y else Fin x
  end.

(** The numeric order on the Numbers other than NaN. *)
Definition num_leb (a b : JsNum) : bool :=
  match a, b with
  | NaN, _ | _, NaN => false
  | NegInf, _ | _, PosInf => true
  | _, NegInf | PosInf, _ => false
  | Fin x, Fin y => Qle_bool x y
  end.

Definition num_le (a b : JsNum) : Prop := num_leb a b = true.

(** ** JavaScript values, as [JSON.parse] builds them

    An object is an association list; the first binding of a key is the
    value of the property. *)

Inductive JsVal : Type :=
| JUndefined
| JNull
| JBool (b : bool)
| JNum (n : JsNum)
| JStr (s : string)
| JArr (elems : list JsVal)
| JObj (props : list (string * JsVal)).

Definition ToBoolean (v : JsVal) : bool :=
  match v with
  | JUndefined | JNull => false
  | JBool b => b
  | JNum n => num_truthy n
  | JStr s => negb (String.eqb s "")
  | JArr _ | JObj _ => true
  end.

(** [a || b] and [a && b] when [b] has no effect. *)
Definition js_or (a b : JsVal) : JsVal := if ToBoolean a then a else b.
Definition js_and (a b : JsVal) : JsVal := if ToBoolean a then b else a.

(** [v === s] for a string literal [s]. *)
Definition strict_eq_str (v : JsVal) (s : string) : bool :=
  match v with
  | JStr t => String.eqb t s
  | _ => false
  end.

Fixpoint own_property (k : string) (props : list (string * JsVal)) : option JsVal :=
  match props with
  | [] => None
  | (k', v) :: rest => if String.eqb k k' then Some v else own_property k rest
  end.

(** ** Completions: a value, or a thrown exception *)

Inductive Exn : Type :=
| TypeError
| SyntaxError
| RequestError.

Inductive Completion (A : Type) : Type :=
| Normal (a : A)
| Throw (e : Exn).
Arguments Normal {A} a.
Arguments Throw {A} e.

Definition cbind {A B} (c : Completion A) (k : A -> Completion B) : Completion B :=
  match c with
  | Normal a => k a
  | Throw e => Throw e
  end.

Notation "'let!' x ':=' c 'in' k" := (cbind c (fun x => k))
  (at level 10, x name, c at level 100, k at level 200).

(** [v.k] for the keys this program reads (name, address, distanceValue,
    security, password, type).  None of them is defined on a prototype, so a
    primitive or an array has no such property; reading a property of
    [null] or [undefined] throws. *)
Definition Get (v : JsVal) (k : string) : Completion JsVal :=
  match v with
  | JUndefined | JNull => Throw TypeError
  | JObj props => Normal (default JUndefined (own_property k props))
  | JBool _ | JNum _ | JStr _ | JArr _ => Normal JUndefined
  end.

(** The value read from a property of a record that can be read. *)
Definition prop (item : JsVal) (k : string) : JsVal :=
  match Get item k with
  | Normal v => v
  | Throw _ => JUndefined
  end.

(** ** Built-ins of the host

    The grammars of Number-to-String and String-to-Number conversion, the
    JSON parser and the locale's collation are the host's; the program is
    modelled over any such host. *)

Class Runtime : Type := {
  (** [Number::toString] on a finite Number *)
  Number_toString : Q -> string;
  (** [StringToNumber] *)
  StringToNumber : string -> JsNum;
  (** [JSON.parse]: the parsed value, or a [SyntaxError] *)
  JSON_parse : string -> Completion JsVal;
  (** [String.prototype.localeCompare], by the sign of its result *)
  localeCompare : string -> string -> Z
}.

Section Coercions.
Context `{Runtime}.

Definition num_toString (n : JsNum) : string :=
  match n with
  | NaN => "NaN"
  | NegInf => "-Infinity"
  | Fin q => Number_toString q
  | PosInf => "Infinity"
  end.

(** ToString.  An array is joined with commas ([null] and [undefined]
    elements print as nothing).  A plain object prints through
    [Object.prototype.toString], unless an own property shadows it: a value
    made by [JSON.parse] is never callable, and the conversion throws. *)
Fixpoint ToString (v : JsVal) : Completion string :=
  match v with
  | JUndefined => Normal "undefined"
  | JNull => Normal "null"
  | JBool true => Normal "true"
  | JBool false => Normal "false"
  | JNum n => Normal (num_toString n)
  | JStr s => Normal s
  | JArr elems =>
      let elem (x : JsVal) : Completion string :=
        match x with
        | JUndefined | JNull => Normal ""
        | _ => ToString x
        end in
      (fix join (l : list JsVal) : Completion string :=
         match l with
         | [] => Normal ""
         | x :: rest =>
             let! s := elem x in
             match rest with
             | [] => Normal s
             | _ :: _ => let! r := join rest in Normal (s ++ "," ++ r)
             end
         end) elems
  | JObj props =>
      match own_property "toString" props with
      | Some _ => Throw TypeError
      | None => Normal "[object Object]"
      end
  end.

(** ToNumber.  An array or object is first converted to a primitive, which
    for the values of this model is its string. *)
Definition ToNumber (v : JsVal) : Completion JsNum :=
  match v with
  | JUndefined => Normal NaN
  | JNull => Normal (Fin 0)
  | JBool b => Normal (Fin (if b then 1 else 0))
  | JNum n => Normal n
  | JStr s => Normal (StringToNumber s)
  | JArr _ | JObj _ => let! s := ToString v in Normal (StringToNumber s)
  end.

End Coercions.

(** ** Effects: state passing with exceptions *)

Definition Eff (S A : Type) : Type := S -> Completion A * S.

Definition ret {S A} (a : A) : Eff S A := fun s => (Normal a, s).

Definition bind {S A B} (m : Eff S A) (k : A -> Eff S B) : Eff S B :=
  fun s =>
    match m s with
    | (Normal a, s') => k a s'
    | (Throw e, s') => (Throw e, s')
    end.

Definition lift {S A} (c : Completion A) : Eff S A := fun s => (c, s).

(** [try { m } catch (e) { handler e }] *)
Definition try_catch {S A} (m : Eff S A) (handler : Exn -> Eff S A) : Eff S A :=
  fun s =>
    match m s with
    | (Normal a, s') => (Normal a, s')
    | (Throw e, s') => handler e s'
    end.

Notation "x <- m ;; k" := (bind m (fun x => k))
  (at level 100, m at next level, right associativity).

(** ** services/geminiService.ts *)

Record WiFiHotspot : Type := {
  id : string;
  name : JsVal;
  address : JsVal;
  distance : string;
  distanceValue : JsVal;
  signalStrength : JsNum;
  security : JsVal;
  password : JsVal;
  type : JsVal
}.

(** What the service reads from its environment: the outcome of the one
    upstream request (the [text] of the response, which may be undefined, or
    a rejection), the draws of [Math.random], the readings of [Date.now], and
    what it leaves there: the console and the time spent waiting. *)
Record World : Type := {
  gemini : JsNum -> JsNum -> Completion (option string);
  random_src : nat -> Q;
  random_pos : nat;
  clock_src : nat -> Z;
  clock_pos : nat;
  console : list string;
  waited : Z
}.

Definition generateContent (lat lng : JsNum) : Eff World (option string) :=
  fun w => (gemini w lat lng, w).

Definition Math_random : Eff World JsNum :=
  fun w =>
    (Normal (Fin (random_src w (random_pos w))),
     {| gemini := gemini w; random_src := random_src w; random_pos := S (random_pos w);
        clock_src := clock_src w; clock_pos := clock_pos w;
        console := console w; waited := waited w |}).

Definition Date_now : Eff World JsNum :=
  fun w =>
    (Normal (num_of_Z (clock_src w (clock_pos w))),
     {| gemini := gemini w; random_src := random_src w; random_pos := random_pos w;
        clock_src := clock_src w; clock_pos := S (clock_pos w);
        console := console w; waited := waited w |}).

Definition console_error (msg : string) : Eff World unit :=
  fun w =>
    (Normal tt,
     {| gemini := gemini w; random_src := random_src w; random_pos := random_pos w;
        clock_src := clock_src w; clock_pos := clock_pos w;
        console := console w ++ [msg]; waited := waited w |}).

(** [await new Promise(resolve => setTimeout(resolve, ms))] *)
Definition sleep (ms : Z) : Eff World unit :=
  fun w =>
    (Normal tt,
     {| gemini := gemini w; random_src := random_src w; random_pos := random_pos w;
        clock_src := clock_src w; clock_pos := clock_pos w;
        console := console w; waited := (waited w + ms)%Z |}).

(** [a || b] where evaluating [b] has an effect *)
Definition or_else (a : JsVal) (b : Eff World JsVal) : Eff World JsVal :=
  if ToBoolean a then ret a else b.

(** [Math.floor(Math.random() * 500)] *)
Definition random_distance : Eff World JsVal :=
  r <- Math_random ;;
  ret (JNum (Math_floor (num_mul r (Fin 500)))).

(** The [i]-th value [Math.floor(Math.random() * 500)] still to come. *)
Definition draw (w : World) (i : nat) : JsNum :=
  Math_floor (num_mul (Fin (random_src w (random_pos w + i))) (Fin 500)).

(** [text.match(/\[[\s\S]*\]/)]: from the first opening bracket to the last
    closing bracket after it. *)
Fixpoint after_first_open (s : string) : option string :=
  match s with
  | EmptyString => None
  | String c rest => if Ascii.eqb c "["%char then Some rest else after_first_open rest
  end.

Fixpoint upto_last_close (s : string) : option string :=
  match s with
  | EmptyString => None
  | String c rest =>
      match upto_last_close rest with
      | Some r => Some (String c r)
      | None => if Ascii.eqb c "]"%char then Some (String c EmptyString) else None
      end
  end.

Definition match_array (text : string) : option string :=
  match after_first_open text with
  | Some rest =>
      match upto_last_close rest with
      | Some r => Some (String "["%char r)
      | None => None
      end
  | None => None
  end.

(** The character [c] occurs in [s]. *)
Fixpoint occurs (c : ascii) (s : string) : bool :=
  match s with
  | EmptyString => false
  | String c' rest => Ascii.eqb c' c || occurs c rest
  end.

(** The text contains a bracketed substring: an opening bracket with a
    closing bracket somewhere after it. *)
Definition bracketed (text : string) : Prop :=
  exists pre mid post, text = pre ++ "[" ++ mid ++ "]" ++ post.

Definition fallback_hotspots : list WiFiHotspot :=
  [ {| id := "1"; name := JStr "Starbucks_Guest"; address := JStr "123 Main St";
       distance := "150m"; distanceValue := JNum (Fin 150); signalStrength := Fin 92;
       security := JStr "Public"; password := JStr "None (Web Login)"; type := JStr "Cafe" |};
    {| id := "2"; name := JStr "Library_Free_WiFi"; address := JStr "456 Library Ln";
       distance := "300m"; distanceValue := JNum (Fin 300); signalStrength := Fin 85;
       security := JStr "Open"; password := JUndefined; type := JStr "Library" |};
    {| id := "3"; name := JStr "DailyGrind_Secure"; address := JStr "789 Brew Blvd";
       distance := "450m"; distanceValue := JNum (Fin 450); signalStrength := Fin 78;
       security := JStr "WPA2"; password := JStr "coffee_lover"; type := JStr "Cafe" |} ].

(** The result of [retrievePasswordEthically]: the [password] property is
    absent from two of the three object literals. *)
Record RetrievalResult : Type := {
  result_password : option JsVal;
  message : string
}.

Definition public_network_message : string :=
  "This is a public network. No password required, but web authentication may be needed.".

Definition password_retrieved_message : string :=
  "Password retrieved from community-shared database. Please use responsibly.".

Definition not_found_message : string :=
  "No community-shared password found for this private network. We do not support unauthorized access to private networks.".

Section Service.
Context `{Runtime}.

(** The callback of [data.map]: one raw record to one hotspot.  The fields
    are evaluated in the order of the object literal; a property read of a
    parsed value has no effect, so each property is read once here. *)
Definition normalize (item : JsVal) (index : nat) : Eff World WiFiHotspot :=
  now <- Date_now ;;
  let id_ := "wifi-" ++ num_toString (num_of_Z (Z.of_nat index)) ++ "-" ++ num_toString now in
  item_name <- lift (Get item "name") ;;
  item_address <- lift (Get item "address") ;;
  item_distanceValue <- lift (Get item "distanceValue") ;;
  shown <- or_else item_distanceValue random_distance ;;
  shown_text <- lift (ToString shown) ;;
  value <- or_else item_distanceValue random_distance ;;
  metres <- lift (ToNumber (js_or item_distanceValue (JNum (Fin 100)))) ;;
  item_security <- lift (Get item "security") ;;
  item_password <- lift (Get item "password") ;;
  item_type <- lift (Get item "type") ;;
  ret {| id := id_;
         name := js_or item_name (JStr "Unknown Hotspot");
         address := js_or item_address (JStr "Nearby");
         distance := shown_text ++ "m";
         distanceValue := value;
         signalStrength :=
           Math_max (Fin 30) (num_sub (Fin 100) (Math_floor (num_div metres (Fin 10))));
         security :=
           js_or item_security
             (if ToBoolean (js_and item_password
                              (JBool (negb (strict_eq_str item_password "None"))))
              then JStr "WPA2" else JStr "Open");
         password := if strict_eq_str item_password "None" then JUndefined else item_password;
         type := js_or item_type (JStr "Public Space") |}.

(** [data.map(callback)]: a value that is not an array has no [map]. *)
Fixpoint map_from {B} (f : JsVal -> nat -> Eff World B) (elems : list JsVal) (index : nat)
  : Eff World (list B) :=
  match elems with
  | [] => ret []
  | x :: rest =>
      y <- f x index ;;
      ys <- map_from f rest (S index) ;;
      ret (y :: ys)
  end.

Definition Array_map {B} (f : JsVal -> nat -> Eff World B) (data : JsVal) : Eff World (list B) :=
  match data with
  | JArr elems => map_from f elems 0
  | _ => lift (Throw TypeError)
  end.

Definition findNearbyWiFi (lat lng : JsNum) : Eff World (list WiFiHotspot) :=
  try_catch
    (response_text <- generateContent lat lng ;;
     let text := default "" response_text in
     parsed <-
       try_catch
         (match match_array text with
          | Some jsonMatch =>
              data <- lift (JSON_parse jsonMatch) ;;
              hotspots <- Array_map normalize data ;;
              ret (Some hotspots)
          | None => ret None
          end)
         (fun e => _ <- console_error "Failed to parse Gemini response" ;; ret None) ;;
     match parsed with
     | Some hotspots => ret hotspots
     | None => ret fallback_hotspots
     end)
    (fun e => _ <- console_error "Error finding WiFi:" ;; ret []).

Definition retrievePasswordEthically (hotspot : WiFiHotspot) : Eff World RetrievalResult :=
  _ <- sleep 2000 ;;
  if strict_eq_str (security hotspot) "Open" || strict_eq_str (security hotspot) "Public"
  then ret {| result_password := None; message := public_network_message |}
  else if ToBoolean (password hotspot)
  then ret {| result_password := Some (password hotspot);
              message := password_retrieved_message |}
  else ret {| result_password := None; message := not_found_message |}.

End Service.

Section Runs.
Context `{Runtime}.

(** The records that the mapping step of a run goes through. *)
Definition parsed_records (lat lng : JsNum) (w : World) : list JsVal :=
  match gemini w lat lng with
  | Normal response_text =>
      match match_array (default "" response_text) with
      | Some jsonMatch =>
          match JSON_parse jsonMatch with
          | Normal (JArr elems) => elems
          | _ => []
          end
      | None => []
      end
  | Throw _ => []
  end.

(** The three ways a run of [findNearbyWiFi] ends. *)
Inductive Outcome (lat lng : JsNum) (w : World) : list WiFiHotspot -> Prop :=
| Upstream_failed (e : Exn) :
    gemini w lat lng = Throw e ->
    Outcome lat lng w []
| Parse_failed (response_text : option string) :
    gemini w lat lng = Normal response_text ->
    match_array (default "" response_text) = None \/
    (exists jsonMatch e,
        match_array (default "" response_text) = Some jsonMatch /\
        JSON_parse jsonMatch = Throw e) \/
    (exists jsonMatch data e w1,
        match_array (default "" response_text) = Some jsonMatch /\
        JSON_parse jsonMatch = Normal data /\
        Array_map normalize data w = (Throw e, w1)) ->
    Outcome lat lng w fallback_hotspots
| Mapped (response_text : option string) (jsonMatch : string) (elems : list JsVal)
         (hs : list WiFiHotspot) (w1 : World) :
    gemini w lat lng = Normal response_text ->
    match_array (default "" response_text) = Some jsonMatch ->
    JSON_parse jsonMatch = Normal (JArr elems) ->
    map_from normalize elems 0 w = (Normal hs, w1) ->
    Outcome lat lng w hs.

End Runs.

(** ** App.tsx: the sorted view *)

Inductive SortKey : Type :=
| Key_signalStrength
| Key_distanceValue
| Key_name.

(** [n || d] on a Number *)
Definition num_or (n d : JsNum) : JsNum := if num_truthy n then n else d.

(** How [Array.prototype.sort] reads the result of its comparator: negative,
    positive, or zero (NaN counts as zero). *)
Definition sign_of (v : JsNum) : comparison :=
  match v with
  | NaN => Eq
  | NegInf => Lt
  | Fin q => (q ?= 0)%Q
  | PosInf => Gt
  end.

(** [Array.prototype.sort] is a stable sort.  With a consistent comparator
    its result is determined, and is the one of this insertion sort; an
    exception of the comparator ends the sort. *)
Section Sort.
Context {A : Type} (comparefn : A -> A -> Completion JsNum).

Fixpoint insert_ordered (x : A) (sorted : list A) : Completion (list A) :=
  match sorted with
  | [] => Normal [x]
  | y :: rest =>
      let! v := comparefn x y in
      match sign_of v with
      | Gt => let! r := insert_ordered x rest in Normal (y :: r)
      | _ => Normal (x :: sorted)
      end
  end.

Fixpoint sort_stable (l : list A) : Completion (list A) :=
  match l with
  | [] => Normal []
  | x :: rest => let! sorted := sort_stable rest in insert_ordered x sorted
  end.

(** The comparator places [a] no later than [b]. *)
Definition not_after (a b : A) : Prop :=
  exists v, comparefn a b = Normal v /\ sign_of v <> Gt.

(** The comparator returns on the values in [P], and of two of them it
    places one no later than the other. *)
Definition total_on (P : A -> Prop) : Prop :=
  forall a b, P a -> P b ->
    exists v, comparefn a b = Normal v /\ (sign_of v = Gt -> not_after b a).
End Sort.

(** Arrays are objects with identity: the heap maps a reference to the
    contents of its array. *)
Abbreviation Heap := (gmap nat (list WiFiHotspot)).

(** [[...arr]]: a new array with the same elements *)
Definition spread (arr : nat) : Eff Heap nat :=
  fun h =>
    match h !! arr with
    | Some elems => let copy := fresh (dom h) in (Normal copy, <[copy := elems]> h)
    | None => (Throw TypeError, h)
    end.

(** [arr.sort(comparefn)]: sorts the array in place and returns it.  When
    the comparator throws, the array is left as it was. *)
Definition Array_sort (comparefn : WiFiHotspot -> WiFiHotspot -> Completion JsNum) (arr : nat)
  : Eff Heap nat :=
  fun h =>
    match h !! arr with
    | Some elems =>
        match sort_stable comparefn elems with
        | Normal sorted => (Normal arr, <[arr := sorted]> h)
        | Throw e => (Throw e, h)
        end
    | None => (Throw TypeError, h)
    end.

Section View.
Context `{Runtime}.

(** The comparator of [sortedHotspots].  [a.name.localeCompare] exists
    only when [a.name] is a string. *)
Definition compareHotspots (sortKey : SortKey) (a b : WiFiHotspot) : Completion JsNum :=
  match sortKey with
  | Key_name =>
      match name a with
      | JStr s => let! t := ToString (name b) in Normal (num_of_Z (localeCompare s t))
      | _ => Throw TypeError
      end
  | Key_distanceValue =>
      let! x := ToNumber (js_or (distanceValue a) (JNum (Fin 0))) in
      let! y := ToNumber (js_or (distanceValue b) (JNum (Fin 0))) in
      Normal (num_sub x y)
  | Key_signalStrength =>
      Normal (num_sub (num_or (signalStrength b) (Fin 0)) (num_or (signalStrength a) (Fin 0)))
  end.

(** [[...hotspots].sort((a, b) => ...)] *)
Definition sortedHotspots (hotspots : nat) (sortKey : SortKey) : Eff Heap nat :=
  copy <- spread hotspots ;;
  Array_sort (compareHotspots sortKey) copy.

End View.

(** The field that the comparator reads for [sortKey] has the type that the
    interface [WiFiHotspot] declares: [name: string], [distanceValue?: number],
    [signalStrength: number]. *)
Definition sortable (sortKey : SortKey) (h : WiFiHotspot) : bool :=
  match sortKey with
  | Key_name => match name h with JStr _ => true | _ => false end
  | Key_distanceValue => match distanceValue h with JUndefined | JNum _ => true | _ => false end
  | Key_signalStrength => true
  end.

(** The keys the three orders compare. *)
Definition distance_key (h : WiFiHotspot) : JsNum :=
  match distanceValue h with
  | JNum n => num_or n (Fin 0)
  | _ => Fin 0
  end.

Definition strength_key (h : WiFiHotspot) : JsNum := num_or (signalStrength h) (Fin 0).

Definition name_key (h : WiFiHotspot) : string :=
  match name h with
  | JStr s => s
  | _ => ""
  end.

(** The order in which [sortKey] displays two hotspots. *)
Definition displayed_order `{Runtime} (sortKey : SortKey) (a b : WiFiHotspot) : Prop :=
  match sortKey with
  | Key_name => (localeCompare (name_key a) (name_key b) <= 0)%Z
  | Key_distanceValue => num_le (distance_key a) (distance_key b)
  | Key_signalStrength => num_le (strength_key b) (strength_key a)
  end.

(** Of two strings, the collation places one no later than the other, as a
    consistent comparison function does. *)
Definition collation_total `{Runtime} : Prop :=
  forall s t, (0 < localeCompare s t)%Z -> (localeCompare t s <= 0)%Z.

(** ** The statements of the specification *)

(** The strength the specification derives from a distance:
    max(30, 100 - floor(distance/10)). *)
Definition spec_strength (distance : Q) : Z := Z.max 30 (100 - Qfloor (distance / 10)).

(** A signal strength within [30, 100]. *)
Definition in_range (h : WiFiHotspot) : Prop :=
  num_le (Fin 30) (signalStrength h) /\ num_le (signalStrength h) (Fin 100).

(** A raw record whose distance is absent or a nonnegative number. *)
Definition distance_absent_or_nonneg (item : JsVal) : Prop :=
  Get item "distanceValue" = Normal JUndefined \/
  exists n, Get item "distanceValue" = Normal (JNum n) /\ num_le (Fin 0) n.

(** ** A host to run the program on

    Decimal printing and reading of integers, the order of the character
    codes as collation, and a parser that knows the texts below. *)

Definition decimal (q : Q) : string := NilZero.string_of_int (Z.to_int (Qfloor q)).

Definition read_decimal (s : string) : JsNum :=
  match NilEmpty.uint_of_string s with
  | Some u => num_of_Z (Z.of_uint u)
  | None => NaN
  end.

Definition code_order (s t : string) : Z :=
  match String.compare s t with
  | Lt => (-1)%Z
  | Eq => 0%Z
  | Gt => 1%Z
  end.

Definition parse_known (s : string) : Completion JsVal :=
  if String.eqb s "[]" then Normal (JArr [])
  else if String.eqb s "[null]" then Normal (JArr [JNull])
  else if String.eqb s "[{}]" then Normal (JArr [JObj []])
  else if String.eqb s "[{},{}]" then Normal (JArr [JObj []; JObj []])
  else Throw SyntaxError.

Definition sample_host : Runtime :=
  {| Number_toString := decimal;
     StringToNumber := read_decimal;
     JSON_parse := parse_known;
     localeCompare := code_order |}.

(** A run in which the upstream call answers [answer], [Math.random] draws
    [draws] (then 0) and the clock reads 1700000000000. *)
Definition sample_world (answer : Completion (option string)) (draws : list Q) : World :=
  {| gemini := fun _ _ => answer;
     random_src := fun i => default 0%Q (draws !! i);
     random_pos := 0;
     clock_src := fun _ => 1700000000000%Z;
     clock_pos := 0;
     console := [];
     waited := 0 |}.

(** A run whose upstream call is of no interest. *)
Definition quiet_world (draws : list Q) : World := sample_world (Throw RequestError) draws.

(** A private network without a stored password, and the third sample under
    another name. *)
Definition office_hotspot : WiFiHotspot :=
  {| id := "wifi-0-1700000000000"; name := JStr "Office_5G"; address := JStr "1 Works Rd";
     distance := "80m"; distanceValue := JNum (Fin 80); signalStrength := Fin 92;
     security := JStr "WPA3"; password := JUndefined; type := JStr "Other" |}.

Definition renamed_hotspot : WiFiHotspot :=
  {| id := "wifi-1-1700000000000"; name := JStr "Grind_Annex"; address := JStr "790 Brew Blvd";
     distance := "20m"; distanceValue := JNum (Fin 20); signalStrength := Fin 98;
     security := JStr "WPA2"; password := JStr "coffee_lover"; type := JStr "Cafe" |}.

Definition sample_hotspots : list WiFiHotspot :=
  (fallback_hotspots ++ [office_hotspot])%list.

(** The store of a view whose list of hotspots is the array at reference 5. *)
Definition sample_heap : Heap := {[ 5%nat := sample_hotspots ]}.

(** ** App.tsx: the state of the view and its handlers *)

(** The state variables of [App], each with its setter. *)
Record AppState : Type := {
  isScanning : bool;
  hotspots : list WiFiHotspot;
  selectedHotspot : option WiFiHotspot;
  location : option (JsNum * JsNum);
  error : option string;
  sortKey : SortKey;
  isRetrieving : bool;
  retrievalResult : option RetrievalResult;
  showPrivacyNotice : bool
}.

Definition initial_state : AppState :=
  {| isScanning := false; hotspots := []; selectedHotspot := None; location := None;
     error := None; sortKey := Key_signalStrength; isRetrieving := false;
     retrievalResult := None; showPrivacyNotice := false |}.

Definition setIsScanning (v : bool) (s : AppState) : AppState :=
  {| isScanning := v; hotspots := hotspots s; selectedHotspot := selectedHotspot s;
     location := location s; error := error s; sortKey := sortKey s;
     isRetrieving := isRetrieving s; retrievalResult := retrievalResult s;
     showPrivacyNotice := showPrivacyNotice s |}.

Definition setHotspots (v : list WiFiHotspot) (s : AppState) : AppState :=
  {| isScanning := isScanning s; hotspots := v; selectedHotspot := selectedHotspot s;
     location := location s; error := error s; sortKey := sortKey s;
     isRetrieving := isRetrieving s; retrievalResult := retrievalResult s;
     showPrivacyNotice := showPrivacyNotice s |}.

Definition setSelectedHotspot (v : option WiFiHotspot) (s : AppState) : AppState :=
  {| isScanning := isScanning s; hotspots := hotspots s; selectedHotspot := v;
     location := location s; error := error s; sortKey := sortKey s;
     isRetrieving := isRetrieving s; retrievalResult := retrievalResult s;
     showPrivacyNotice := showPrivacyNotice s |}.

Definition setLocation (v : option (JsNum * JsNum)) (s : AppState) : AppState :=
  {| isScanning := isScanning s; hotspots := hotspots s; selectedHotspot := selectedHotspot s;
     location := v; error := error s; sortKey := sortKey s;
     isRetrieving := isRetrieving s; retrievalResult := retrievalResult s;
     showPrivacyNotice := showPrivacyNotice s |}.

Definition setError (v : option string) (s : AppState) : AppState :=
  {| isScanning := isScanning s; hotspots := hotspots s; selectedHotspot := selectedHotspot s;
     location := location s; error := v; sortKey := sortKey s;
     isRetrieving := isRetrieving s; retrievalResult := retrievalResult s;
     showPrivacyNotice := showPrivacyNotice s |}.

Definition setSortKey (v : SortKey) (s : AppState) : AppState :=
  {| isScanning := isScanning s; hotspots := hotspots s; selectedHotspot := selectedHotspot s;
     location := location s; error := error s; sortKey := v;
     isRetrieving := isRetrieving s; retrievalResult := retrievalResult s;
     showPrivacyNotice := showPrivacyNotice s |}.

Definition setIsRetrieving (v : bool) (s : AppState) : AppState :=
  {| isScanning := isScanning s; hotspots := hotspots s; selectedHotspot := selectedHotspot s;
     location := location s; error := error s; sortKey := sortKey s;
     isRetrieving := v; retrievalResult := retrievalResult s;
     showPrivacyNotice := showPrivacyNotice s |}.

Definition setRetrievalResult (v : option RetrievalResult) (s : AppState) : AppState :=
  {| isScanning := isScanning s; hotspots := hotspots s; selectedHotspot := selectedHotspot s;
     location := location s; error := error s; sortKey := sortKey s;
     isRetrieving := isRetrieving s; retrievalResult := v;
     showPrivacyNotice := showPrivacyNotice s |}.

Definition setShowPrivacyNotice (v : bool) (s : AppState) : AppState :=
  {| isScanning := isScanning s; hotspots := hotspots s; selectedHotspot := selectedHotspot s;
     location := location s; error := error s; sortKey := sortKey s;
     isRetrieving := isRetrieving s; retrievalResult := retrievalResult s;
     showPrivacyNotice := v |}.

Definition unsupported_message : string := "Geolocation is not supported by your browser.".
Definition denied_message : string :=
  "Location access denied. Please enable location to find nearby Wi-Fi.".
Definition fetch_failed_message : string :=
  "Failed to fetch nearby hotspots. Please try again.".
Definition retrieval_failed_message : string :=
  "Failed to retrieve password. Please try again.".

(** [startScan], up to the request for the position: [geolocation] tells
    whether [navigator.geolocation] exists. *)
Definition startScan (geolocation : bool) (s : AppState) : AppState :=
  let s := setIsScanning true s in
  let s := setError None s in
  let s := setHotspots [] s in
  let s := setSelectedHotspot None s in
  let s := setRetrievalResult None s in
  if negb geolocation
  then setIsScanning false (setError (Some unsupported_message) s)
  else s.

(** The error callback of [getCurrentPosition]. *)
Definition position_denied (s : AppState) : AppState :=
  setIsScanning false (setError (Some denied_message) s).

(** The success callback of [getCurrentPosition], up to its [await]. *)
Definition position_received (latitude longitude : JsNum) (s : AppState) : AppState :=
  setLocation (Some (latitude, longitude)) s.

(** [selectedHotspot?.id === spot.id] *)
Definition is_selected (s : AppState) (spot : WiFiHotspot) : bool :=
  match selectedHotspot s with
  | Some selected => String.eqb (id selected) (id spot)
  | None => false
  end.

(** The [onClick] of the button of a hotspot. *)
Definition click_hotspot (spot : WiFiHotspot) (s : AppState) : AppState :=
  let s := setSelectedHotspot (if is_selected s spot then None else Some spot) s in
  setRetrievalResult None s.

(** [handleRetrievePassword], up to its [await]. *)
Definition retrieval_started (s : AppState) : AppState :=
  setRetrievalResult None (setIsRetrieving true s).

(** The icons of lucide-react that [getSignalIcon] chooses from, each with
    the class it is given. *)
Inductive Icon : Type :=
| SignalHigh
| SignalMedium
| SignalLow.

(** [a > b] on Numbers: false when either is NaN. *)
Definition num_gtb (a b : JsNum) : bool :=
  match a, b with
  | NaN, _ | _, NaN => false
  | _, _ => negb (num_leb a b)
  end.

Definition getSignalIcon (strength : JsNum) : Icon * string :=
  if num_gtb strength (Fin 80) then (SignalHigh, "w-4 h-4 text-emerald-400")
  else if num_gtb strength (Fin 50) then (SignalMedium, "w-4 h-4 text-amber-400")
  else (SignalLow, "w-4 h-4 text-rose-400").

(** What the view shows of a state: the sorting controls, the notice that
    no network was found, and the password of the result. *)
Definition shows_sort_controls (s : AppState) : bool :=
  negb (isScanning s) && (0 <? length (hotspots s))%nat.

Definition shows_no_networks (s : AppState) : bool :=
  negb (isScanning s) && (length (hotspots s) =? 0)%nat
  && match error s with Some msg => String.eqb msg "" | None => true end.

(** [retrievalResult?.password ? ... : ...] *)
Definition shown_password (s : AppState) : option JsVal :=
  match retrievalResult s with
  | Some result =>
      match result_password result with
      | Some p => if ToBoolean p then Some p else None
      | None => None
      end
  | None => None
  end.

Section Handlers.
Context `{Runtime}.

(** The success callback after its [await]: the result of the resolver is
    stored, or its exception is reported; in both cases the scan ends. *)
Definition scan_settled (latitude longitude : JsNum) (s : AppState) (w : World)
  : AppState * World :=
  match findNearbyWiFi latitude longitude w with
  | (Normal results, w') => (setIsScanning false (setHotspots results s), w')
  | (Throw _, w') => (setIsScanning false (setError (Some fetch_failed_message) s), w')
  end.

(** The whole success callback. *)
Definition position_found (latitude longitude : JsNum) (s : AppState) (w : World)
  : AppState * World :=
  scan_settled latitude longitude (position_received latitude longitude s) w.

End Handlers.

(** [handleRetrievePassword] after its [await]. *)
Definition retrieval_settled (spot : WiFiHotspot) (s : AppState) (w : World)
  : AppState * World :=
  match retrievePasswordEthically spot w with
  | (Normal result, w') => (setIsRetrieving false (setRetrievalResult (Some result) s), w')
  | (Throw _, w') =>
      (setIsRetrieving false
         (setRetrievalResult
            (Some {| result_password := None; message := retrieval_failed_message |}) s),
       w')
  end.

Definition handleRetrievePassword (spot : WiFiHotspot) (s : AppState) (w : World)
  : AppState * World :=
  retrieval_settled spot (retrieval_started s) w.

(** What can happen to the view: a handler runs, or the continuation of one
    that was waiting. *)
Inductive Event : Type :=
| Scan_started (geolocation : bool)
| Position_received (latitude longitude : JsNum)
| Position_denied
| Scan_settled (latitude longitude : JsNum) (w : World)
| Sort_by_signal
| Sort_by_distance
| Hotspot_clicked (spot : WiFiHotspot)
| Retrieval_started (spot : WiFiHotspot)
| Retrieval_settled (spot : WiFiHotspot) (w : World)
| Privacy_notice (shown : bool).

Section Machine.
Context `{Runtime}.

Definition step (s : AppState) (e : Event) : AppState :=
  match e with
  | Scan_started geolocation => startScan geolocation s
  | Position_received latitude longitude => position_received latitude longitude s
  | Position_denied => position_denied s
  | Scan_settled latitude longitude w => fst (scan_settled latitude longitude s w)
  | Sort_by_signal => setSortKey Key_signalStrength s
  | Sort_by_distance => setSortKey Key_distanceValue s
  | Hotspot_clicked spot => click_hotspot spot s
  | Retrieval_started spot => retrieval_started s
  | Retrieval_settled spot w => fst (retrieval_settled spot s w)
  | Privacy_notice shown => setShowPrivacyNotice shown s
  end.

(** When the view lets an event happen.  A scan starts on mount and from
    the refresh button, which is disabled by [isScanning]; it is allowed in
    every state here, which only adds states.  The callbacks of a scan come
    while that scan is under way, that is while [isScanning] holds: the
    refresh button keeps a second scan from starting before the first has
    ended.  The sorting controls are rendered when
    [!isScanning && hotspots.length > 0]; the buttons of the hotspots are
    those of the list; the retrieval button is in the panel of the selected
    hotspot, rendered when [!retrievalResult] and disabled by
    [isRetrieving]. *)
Definition enabled (s : AppState) (e : Event) : Prop :=
  match e with
  | Scan_started _ => True
  | Position_received _ _ | Position_denied | Scan_settled _ _ _ => isScanning s = true
  | Sort_by_signal | Sort_by_distance => shows_sort_controls s = true
  | Hotspot_clicked spot => In spot (hotspots s)
  | Retrieval_started spot =>
      In spot (hotspots s) /\ is_selected s spot = true /\
      retrievalResult s = None /\ isRetrieving s = false
  | Retrieval_settled _ _ => True
  | Privacy_notice _ => True
  end.

Inductive reachable : AppState -> Prop :=
| reachable_initial : reachable initial_state
| reachable_step (s : AppState) (e : Event) :
    reachable s -> enabled s e -> reachable (step s e).

End Machine.

(** ** Further statements *)

(** A record normalizes: its distanceValue can be read and printed. *)
Definition normalizes `{Runtime} (item : JsVal) : Prop :=
  exists dv s, Get item "distanceValue" = Normal dv /\ ToString dv = Normal s.

(** The text of an index in an id, and a host that prints the indices below
    [n] without a dash and differently from each other. *)
Definition index_text `{Runtime} (i : nat) : string :=
  num_toString (num_of_Z (Z.of_nat i)).

Definition prints_indices `{Runtime} (n : nat) : Prop :=
  forall i j, (i < n)%nat -> (j < n)%nat ->
    occurs "-" (index_text i) = false /\ (index_text i = index_text j -> i = j).

(** The comparator by distance returns on the hotspot. *)
Definition comparable `{Runtime} (h : WiFiHotspot) : Prop :=
  exists n, ToNumber (js_or (distanceValue h) (JNum (Fin 0))) = Normal n.

(** What holds of every state that the view reaches. *)
Definition view_invariant (s : AppState) : Prop :=
  sortKey s <> Key_name /\
  (isScanning s = true -> hotspots s = [] /\ error s = None) /\
  (error s <> None -> hotspots s = []) /\
  (forall x, selectedHotspot s = Some x -> In x (hotspots s)) /\
  error s <> Some fetch_failed_message.

(** The state after a first scan at a position, in a run whose response is
    the text "[{},{}]". *)
Definition scanned_state : AppState :=
  fst (@position_found sample_host (Fin 52) (Fin 13) (startScan true initial_state)
         (sample_world (Normal (Some "[{},{}]")) [1 # 10; 9 # 10])).

(** A state that lists the sample hotspots, with nothing selected. *)
Definition listed_state : AppState := setHotspots sample_hotspots initial_state.

(** The hotspots whose strength is 92. *)
Definition strength_92 (h : WiFiHotspot) : bool :=
  match signalStrength h with
  | Fin q => Qeq_bool q 92
  | _ => false
  end.

(** * Properties *)

(** ** Numbers *)

Lemma Qeq_bool_false_neq (q : Q) : ~ (q == 0)%Q -> Qeq_bool q 0 = false.
Proof.
  intros Hq. destruct (Qeq_bool q 0) eqn:E; [|reflexivity].
  exfalso. apply Hq. now apply Qeq_bool_iff.
Qed.

Lemma num_of_Z_sub (a b : Z) : num_sub (num_of_Z a) (num_of_Z b) = num_of_Z (a - b).
Proof.
  unfold num_of_Z, num_sub, inject_Z, Qminus, Qplus, Qopp. simpl.
  do 2 f_equal. lia.
Qed.

Lemma Math_max_of_Z (a b : Z) : Math_max (num_of_Z a) (num_of_Z b) = num_of_Z (Z.max a b).
Proof.
  unfold num_of_Z, Math_max, Qle_bool, inject_Z. simpl.
  rewrite !Z.mul_1_r.
  destruct (Z.leb_spec a b).
  - now rewrite Z.max_r.
  - now rewrite Z.max_l by lia.
Qed.

(** The strength expression of the source, on a finite distance. *)
Lemma strength_of_finite (d : Q) :
  Math_max (Fin 30) (num_sub (Fin 100) (Math_floor (num_div (Fin d) (Fin 10))))
  = num_of_Z (Z.max 30 (100 - Qfloor (d / 10))).
Proof.
  change (num_div (Fin d) (Fin 10)) with (Fin (d / 10)).
  change (Math_floor (Fin (d / 10))) with (num_of_Z (Qfloor (d / 10))).
  change (Fin 100) with (num_of_Z 100). change (Fin 30) with (num_of_Z 30).
  now rewrite num_of_Z_sub, Math_max_of_Z.
Qed.

(** ** Normalization of one raw record *)

Section Normalization.
Context `{Runtime}.

Lemma Get_prop (item : JsVal) (k k' : string) (v : JsVal) :
  Get item k = Normal v -> Get item k' = Normal (prop item k').
Proof. unfold prop. destruct item; simpl; intros; try discriminate; reflexivity. Qed.

Lemma ToString_ToNumber (v : JsVal) (s : string) :
  ToString v = Normal s -> exists q, ToNumber v = Normal q.
Proof.
  destruct v; intros Hs; try (eexists; reflexivity);
    unfold ToNumber; rewrite Hs; eexists; reflexivity.
Qed.

Lemma falsy_ToString (v : JsVal) :
  ToBoolean v = false -> exists s, ToString v = Normal s.
Proof.
  destruct v; simpl; intros; try discriminate; try (eexists; reflexivity).
  destruct b; eexists; reflexivity.
Qed.

(** A record normalizes as soon as its [distanceValue] can be read and
    printed, and every field of the hotspot is then as follows. *)
Lemma normalize_spec (item : JsVal) (index : nat) (w : World) (dv : JsVal) (s : string) :
  Get item "distanceValue" = Normal dv ->
  ToString dv = Normal s ->
  exists h w' metres,
    normalize item index w = (Normal h, w') /\
    ToNumber (js_or dv (JNum (Fin 100))) = Normal metres /\
    signalStrength h
      = Math_max (Fin 30) (num_sub (Fin 100) (Math_floor (num_div metres (Fin 10)))) /\
    password h
      = (if strict_eq_str (prop item "password") "None"
         then JUndefined else prop item "password") /\
    (ToBoolean dv = true -> distanceValue h = dv /\ distance h = s ++ "m") /\
    (ToBoolean dv = false ->
     distanceValue h = JNum (draw w 1) /\ distance h = num_toString (draw w 0) ++ "m").
Proof.
  intros Hdv Hs.
  assert (exists q, ToNumber (js_or dv (JNum (Fin 100))) = Normal q) as [q Hq].
  { destruct (ToString_ToNumber _ _ Hs) as [q0 Hq0].
    unfold js_or. destruct (ToBoolean dv); eauto. }
  unfold normalize, or_else, draw.
  rewrite (Get_prop _ _ "name" _ Hdv), (Get_prop _ _ "address" _ Hdv), Hdv.
  rewrite (Get_prop _ _ "security" _ Hdv), (Get_prop _ _ "password" _ Hdv).
  rewrite (Get_prop _ _ "type" _ Hdv).
  cbv [bind lift ret Date_now].
  destruct (ToBoolean dv) eqn:Htruthy.
  - cbv beta iota. rewrite Hs. cbv beta iota. rewrite Hq. cbv beta iota.
    do 3 eexists. repeat split; try reflexivity; discriminate.
  - cbv [bind lift ret random_distance Math_random]. cbn [ToString].
    cbv beta iota. rewrite Hq. cbv beta iota.
    do 3 eexists. repeat split; try reflexivity; try discriminate.
    all: cbn [distanceValue distance random_src random_pos];
      rewrite ?Nat.add_0_r, ?Nat.add_1_r; reflexivity.
Qed.

(** Conversely, a record that normalizes has a readable, printable
    [distanceValue]. *)
Lemma normalize_returns_inv (item : JsVal) (index : nat) (w w' : World) (h : WiFiHotspot) :
  normalize item index w = (Normal h, w') ->
  exists dv s, Get item "distanceValue" = Normal dv /\ ToString dv = Normal s.
Proof.
  intros Hn.
  destruct (Get item "distanceValue") as [dv|e] eqn:Hdv.
  - destruct (ToString dv) as [s|e] eqn:Hs; [eauto|].
    exfalso. revert Hn. unfold normalize, or_else.
    rewrite (Get_prop _ _ "name" _ Hdv), (Get_prop _ _ "address" _ Hdv), Hdv.
    cbv [bind lift ret Date_now].
    destruct (ToBoolean dv) eqn:Htruthy.
    + cbv beta iota. rewrite Hs. discriminate.
    + destruct (falsy_ToString _ Htruthy) as [s Hs']. congruence.
  - exfalso. revert Hn. unfold normalize.
    assert (Get item "name" = Throw e) as ->.
    { destruct item; simpl in *; try discriminate; assumption. }
    cbv [bind lift ret Date_now]. discriminate.
Qed.

End Normalization.

(** ** The match of the regular expression *)

Lemma string_append_assoc (s t u : string) : (s ++ t) ++ u = s ++ t ++ u.
Proof.
  induction s as [|c s IH]; [reflexivity|].
  change (String c ((s ++ t) ++ u) = String c (s ++ t ++ u)). now rewrite IH.
Qed.

Lemma occurs_app c s t : occurs c (s ++ t) = occurs c s || occurs c t.
Proof. induction s as [|c' s IH]; simpl; [reflexivity|]. now rewrite IH, orb_assoc. Qed.

Lemma after_first_open_None s : after_first_open s = None <-> occurs "[" s = false.
Proof.
  induction s as [|c s IH]; cbn; [tauto|].
  destruct (Ascii.eqb c "["); cbn; [split; discriminate | exact IH].
Qed.

Lemma after_first_open_Some s rest :
  after_first_open s = Some rest ->
  exists pre, s = pre ++ String "[" rest /\ occurs "[" pre = false.
Proof.
  revert rest. induction s as [|c s IH]; cbn; intros rest; [discriminate|].
  destruct (Ascii.eqb_spec c "[") as [->|Hc].
  - intros [= ->]. exists "". split; reflexivity.
  - intros (pre & -> & Hpre)%IH. exists (String c pre). split; [reflexivity|].
    cbn. rewrite Hpre. now destruct (Ascii.eqb_spec c "[").
Qed.

Lemma upto_last_close_None s : upto_last_close s = None <-> occurs "]" s = false.
Proof.
  induction s as [|c s IH]; cbn; [tauto|].
  destruct (upto_last_close s) as [r|].
  - split; [discriminate|]. intros [_ Hs]%orb_false_iff. apply IH in Hs. discriminate.
  - destruct (Ascii.eqb c "]"); cbn; [split; discriminate|]. split; [intros _; now apply IH|reflexivity].
Qed.

Lemma upto_last_close_Some s r :
  upto_last_close s = Some r ->
  exists mid post, r = mid ++ "]" /\ s = r ++ post /\ occurs "]" post = false.
Proof.
  revert r. induction s as [|c s IH]; cbn; intros r; [discriminate|].
  destruct (upto_last_close s) as [r'|] eqn:Hs.
  - intros [= <-]. destruct (IH r' eq_refl) as (mid & post & -> & -> & Hpost).
    exists (String c mid), post. repeat split; auto.
  - destruct (Ascii.eqb_spec c "]") as [->|Hc]; [|discriminate].
    intros [= <-]. exists "", s. repeat split. now apply upto_last_close_None.
Qed.

(** The match runs from the first opening bracket to the last closing
    bracket. *)
Lemma match_array_Some text j :
  match_array text = Some j ->
  exists pre mid post,
    j = "[" ++ mid ++ "]" /\ text = pre ++ "[" ++ mid ++ "]" ++ post /\
    occurs "[" pre = false /\ occurs "]" post = false.
Proof.
  unfold match_array.
  destruct (after_first_open text) as [rest|] eqn:Hopen; [|discriminate].
  destruct (upto_last_close rest) as [r|] eqn:Hclose; [|discriminate].
  intros [= <-].
  apply after_first_open_Some in Hopen as (pre & -> & Hpre).
  apply upto_last_close_Some in Hclose as (mid & post & -> & -> & Hpost).
  exists pre, mid, post. repeat split; auto.
  simpl. now rewrite string_append_assoc.
Qed.

Lemma after_first_open_keeps (c : ascii) pre tail rest :
  after_first_open (pre ++ String "[" tail) = Some rest ->
  occurs c tail = true -> occurs c rest = true.
Proof.
  revert rest. induction pre as [|a pre IH]; simpl; intros rest.
  - intros [= Heq] Ht. now subst rest.
  - destruct (Ascii.eqb a "[").
    + intros [= Heq] Ht. subst rest. rewrite occurs_app. simpl. rewrite Ht.
      now rewrite !orb_true_r.
    + apply IH.
Qed.

(** There is no match exactly when the text has no bracketed substring. *)
Lemma match_array_None text : match_array text = None <-> ~ bracketed text.
Proof.
  split.
  - intros Hnone (pre & mid & post & ->). revert Hnone. unfold match_array.
    destruct (after_first_open (pre ++ "[" ++ mid ++ "]" ++ post)) as [rest|] eqn:Hopen.
    + assert (occurs "]" rest = true) as Hrest.
      { apply (after_first_open_keeps _ _ _ _ Hopen). rewrite occurs_app. cbn.
        now rewrite orb_true_r. }
      destruct (upto_last_close rest) eqn:Hclose; [discriminate|].
      apply upto_last_close_None in Hclose. congruence.
    + apply after_first_open_None in Hopen. rewrite occurs_app in Hopen. cbn in Hopen.
      now rewrite orb_true_r in Hopen.
  - intros Hnot. destruct (match_array text) as [j|] eqn:Hm; [|reflexivity].
    exfalso. apply Hnot. apply match_array_Some in Hm as (pre & mid & post & -> & -> & _).
    exists pre, mid, post. reflexivity.
Qed.

(** ** The resolver *)

Section Resolver.
Context `{Runtime}.

(** Every hotspot of a successful mapping is the normalization of the
    record at its position. *)
Lemma map_from_normalize (elems : list JsVal) (index : nat) (w w' : World)
      (hs : list WiFiHotspot) :
  map_from normalize elems index w = (Normal hs, w') ->
  Forall2 (fun item h => exists i w1 w2, normalize item i w1 = (Normal h, w2)) elems hs.
Proof.
  revert index w w' hs. induction elems as [|x rest IH]; intros index w w' hs.
  - cbn. intros [= <- _]. constructor.
  - cbn [map_from]. unfold bind at 1.
    destruct (normalize x index w) as [[h|e] w1] eqn:Hx; [|discriminate].
    unfold bind at 1.
    destruct (map_from normalize rest (S index) w1) as [[hs'|e] w2] eqn:Hrest; [|discriminate].
    cbn. intros [= <- _]. constructor.
    + exists index, w, w1. exact Hx.
    + eapply IH. exact Hrest.
Qed.

Lemma findNearbyWiFi_outcome (lat lng : JsNum) (w : World) :
  exists hs w', findNearbyWiFi lat lng w = (Normal hs, w') /\ Outcome lat lng w hs.
Proof.
  unfold findNearbyWiFi, try_catch, generateContent.
  unfold bind at 1.
  destruct (gemini w lat lng) as [rt|e] eqn:Hup.
  2:{ cbn. do 2 eexists. split; [reflexivity|]. eapply Upstream_failed; eassumption. }
  cbv zeta.
  unfold bind at 1.
  destruct (match_array (default "" rt)) as [j|] eqn:Hm.
  2:{ cbn. do 2 eexists. split; [reflexivity|].
      eapply Parse_failed; [eassumption|]. now left. }
  unfold bind at 1, lift at 1.
  destruct (JSON_parse j) as [data|e] eqn:Hp.
  2:{ cbn. do 2 eexists. split; [reflexivity|].
      eapply Parse_failed; [eassumption|]. right; left. eauto. }
  unfold bind at 1.
  destruct (Array_map normalize data w) as [[hs|e] w1] eqn:Hmap.
  - cbn. do 2 eexists. split; [reflexivity|].
    destruct data; try (cbn in Hmap; discriminate).
    eapply Mapped; eassumption.
  - cbn. do 2 eexists. split; [reflexivity|].
    eapply Parse_failed; [eassumption|]. right; right. eauto 10.
Qed.

End Resolver.

(** ** Claims about the resolver and the retrieval policy *)

Lemma num_le_of_Z (a b : Z) : num_le (num_of_Z a) (num_of_Z b) <-> (a <= b)%Z.
Proof.
  unfold num_le, num_of_Z, num_leb, Qle_bool, inject_Z. simpl.
  rewrite !Z.mul_1_r. apply Z.leb_le.
Qed.

Lemma Qfloor_tenth_nonneg (d : Q) : (0 <= d)%Q -> (0 <= Qfloor (d / 10))%Z.
Proof.
  intros Hd. change 0%Z with (Qfloor 0). apply Qfloor_resp_le.
  apply Qle_shift_div_l; [reflexivity|]. now rewrite Qmult_0_l.
Qed.

Lemma spec_strength_bounds (d : Q) : (0 <= d)%Q -> (30 <= spec_strength d <= 100)%Z.
Proof. intros Hd%Qfloor_tenth_nonneg. unfold spec_strength. lia. Qed.

Section Claims.
Context `{Runtime}.

Lemma normalize_number (item : JsVal) (index : nat) (w : World) (n : JsNum) :
  Get item "distanceValue" = Normal (JNum n) ->
  exists h w',
    normalize item index w = (Normal h, w') /\
    signalStrength h
      = Math_max (Fin 30)
          (num_sub (Fin 100) (Math_floor (num_div (num_or n (Fin 100)) (Fin 10)))).
Proof.
  intros Hdv.
  destruct (normalize_spec item index w _ _ Hdv eq_refl) as (h & w' & m & Hn & Hm & Hs & _).
  exists h, w'. split; [exact Hn|]. rewrite Hs.
  unfold js_or, num_or in *. cbn [ToBoolean] in Hm.
  destruct (num_truthy n); cbn in Hm; injection Hm as <-; reflexivity.
Qed.

Lemma normalize_absent (item : JsVal) (index : nat) (w : World) :
  Get item "distanceValue" = Normal JUndefined ->
  exists h w', normalize item index w = (Normal h, w') /\ signalStrength h = num_of_Z 90.
Proof.
  intros Hdv.
  destruct (normalize_spec item index w _ _ Hdv eq_refl) as (h & w' & m & Hn & Hm & Hs & _).
  exists h, w'. split; [exact Hn|]. rewrite Hs.
  cbn in Hm. injection Hm as <-. reflexivity.
Qed.

(** C1 (amended).  For every raw record whose distanceValue is a nonzero
    number d, whatever else the record carries, the normalized hotspot's
    signal strength is max(30, 100 - floor(d/10)); a record without a
    distanceValue gets the strength of the default distance 100, which is
    90.  In particular a distance of 100 yields 90 and a distance of 1000
    yields 30. *)
Theorem strength_from_source_distance (item : JsVal) (index : nat) (w : World) :
  (forall d : Q,
      Get item "distanceValue" = Normal (JNum (Fin d)) -> ~ (d == 0)%Q ->
      exists h w', normalize item index w = (Normal h, w') /\
                   signalStrength h = num_of_Z (spec_strength d)) /\
  (Get item "distanceValue" = Normal JUndefined ->
   exists h w', normalize item index w = (Normal h, w') /\
                signalStrength h = num_of_Z 90) /\
  (Get item "distanceValue" = Normal (JNum (Fin 100)) ->
   exists h w', normalize item index w = (Normal h, w') /\
                signalStrength h = num_of_Z 90) /\
  (Get item "distanceValue" = Normal (JNum (Fin 1000)) ->
   exists h w', normalize item index w = (Normal h, w') /\
                signalStrength h = num_of_Z 30).
Proof.
  assert (forall d : Q,
      Get item "distanceValue" = Normal (JNum (Fin d)) -> ~ (d == 0)%Q ->
      exists h w', normalize item index w = (Normal h, w') /\
                   signalStrength h = num_of_Z (spec_strength d)) as Hnum.
  { intros d Hdv Hd.
    destruct (normalize_number item index w _ Hdv) as (h & w' & Hn & Hs).
    exists h, w'. split; [exact Hn|]. rewrite Hs.
    unfold num_or. cbn [num_truthy]. rewrite (Qeq_bool_false_neq d Hd). cbn [negb].
    apply strength_of_finite. }
  split; [exact Hnum|]. split; [|split].
  - apply normalize_absent.
  - intros Hdv. apply (Hnum 100%Q Hdv). discriminate.
  - intros Hdv. apply (Hnum 1000%Q Hdv). discriminate.
Qed.

(** When the source supplies a usable distanceValue, the two distance
    fields agree: the string is the printed value followed by "m". *)
Lemma distance_fields_agree (item : JsVal) (index : nat) (w : World) (dv : JsVal) (s : string) :
  Get item "distanceValue" = Normal dv ->
  ToString dv = Normal s ->
  ToBoolean dv = true ->
  exists h w', normalize item index w = (Normal h, w') /\
               distanceValue h = dv /\ distance h = s ++ "m".
Proof.
  intros Hdv Hs Ht.
  destruct (normalize_spec item index w _ _ Hdv Hs) as (h & w' & m & Hn & _ & _ & _ & Hd & _).
  exists h, w'. split; [exact Hn|]. now apply Hd.
Qed.

(** Without one, the string is printed from one draw and the value is the
    next draw. *)
Lemma distance_fields_drawn_twice (item : JsVal) (index : nat) (w : World) (dv : JsVal) :
  Get item "distanceValue" = Normal dv ->
  ToBoolean dv = false ->
  exists h w', normalize item index w = (Normal h, w') /\
               distanceValue h = JNum (draw w 1) /\
               distance h = num_toString (draw w 0) ++ "m".
Proof.
  intros Hdv Hf. destruct (falsy_ToString _ Hf) as [s Hs].
  destruct (normalize_spec item index w _ _ Hdv Hs) as (h & w' & m & Hn & _ & _ & _ & _ & Hd).
  exists h, w'. split; [exact Hn|]. now apply Hd.
Qed.

(** C3 (amended).  A signal-strength value supplied by a raw record is not
    retained, and the normalized hotspot does not depend on it: two records
    that agree on every property other than signalStrength normalize to the
    same hotspot, in the same way. *)
Theorem supplied_strength_is_ignored (item item' : JsVal) (index : nat) (w : World) :
  (forall k, k <> "signalStrength" -> Get item k = Get item' k) ->
  normalize item index w = normalize item' index w.
Proof.
  intros Hk. unfold normalize.
  now rewrite !Hk by discriminate.
Qed.

(** C8.  Normalization strips the sentinel password: a raw password equal
    to "None" becomes an absent password on the resulting hotspot, and any
    other password string is preserved verbatim. *)
Theorem password_sentinel_stripped (item : JsVal) (index : nat) (w : World)
        (dv : JsVal) (s : string) :
  Get item "distanceValue" = Normal dv ->
  ToString dv = Normal s ->
  exists h w',
    normalize item index w = (Normal h, w') /\
    (Get item "password" = Normal (JStr "None") -> password h = JUndefined) /\
    (forall p, Get item "password" = Normal (JStr p) -> p <> "None" -> password h = JStr p).
Proof.
  intros Hdv Hs.
  destruct (normalize_spec item index w _ _ Hdv Hs) as (h & w' & m & Hn & _ & _ & Hp & _).
  exists h, w'. split; [exact Hn|]. rewrite Hp. unfold prop. split.
  - intros ->. reflexivity.
  - intros p -> Hne. cbn [strict_eq_str].
    destruct (String.eqb_spec p "None"); [contradiction|reflexivity].
Qed.

Lemma normalized_in_range (item : JsVal) (index : nat) (w w' : World) (h : WiFiHotspot) :
  normalize item index w = (Normal h, w') ->
  distance_absent_or_nonneg item ->
  in_range h.
Proof.
  intros Hn [Hdv | (n & Hdv & Hle)].
  - destruct (normalize_absent item index w Hdv) as (h' & w'' & Hn' & Hs).
    rewrite Hn in Hn'. injection Hn' as <- _.
    unfold in_range. rewrite Hs. split; now apply num_le_of_Z.
  - destruct (normalize_number item index w _ Hdv) as (h' & w'' & Hn' & Hs).
    rewrite Hn in Hn'. injection Hn' as <- _.
    unfold in_range. rewrite Hs. clear Hs.
    destruct n as [| |d|]; try discriminate.
    + unfold num_or. cbn [num_truthy].
      destruct (Qeq_bool d 0) eqn:Hz; cbn [negb].
      * split; now apply num_le_of_Z.
      * rewrite strength_of_finite.
        apply Qle_bool_iff in Hle. apply spec_strength_bounds in Hle.
        change (Fin 30) with (num_of_Z 30). change (Fin 100) with (num_of_Z 100).
        split; apply num_le_of_Z; apply Hle.
    + split; reflexivity.
Qed.

(** C9.  Every hotspot returned by [findNearbyWiFi] is an entry of the
    fixed fallback list, with a signal strength in [30, 100], or is the
    normalization of a parsed record, with a signal strength in [30, 100]
    when that record's distance is absent or a nonnegative number. *)
Theorem returned_strength_in_range (lat lng : JsNum) (w : World) :
  exists hs w',
    findNearbyWiFi lat lng w = (Normal hs, w') /\
    forall h, In h hs ->
      (In h fallback_hotspots /\ in_range h) \/
      (exists item i w1 w2,
          In item (parsed_records lat lng w) /\
          normalize item i w1 = (Normal h, w2) /\
          (distance_absent_or_nonneg item -> in_range h)).
Proof.
  destruct (findNearbyWiFi_outcome lat lng w) as (hs & w' & Hrun & Hout).
  exists hs, w'. split; [exact Hrun|].
  intros h Hin. destruct Hout as [e He | rt Hrt Hfail | rt j elems hs w1 Hrt Hm Hp Hmap].
  - destruct Hin.
  - left. split; [exact Hin|].
    cbn in Hin. destruct Hin as [<- | [<- | [<- | []]]]; split; reflexivity.
  - right. apply map_from_normalize in Hmap.
    assert (parsed_records lat lng w = elems) as ->.
    { unfold parsed_records. now rewrite Hrt, Hm, Hp. }
    clear Hrt Hm Hp Hrun. induction Hmap as [|item h0 elems hs (i & wa & wb & Hn) _ IH].
    + destruct Hin.
    + destruct Hin as [<- | Hin].
      * exists item, i, wa, wb. split; [now left|]. split; [exact Hn|].
        now apply normalized_in_range with (1 := Hn).
      * destruct (IH Hin) as (item' & i' & wa' & wb' & Hin' & Hn' & Hr').
        exists item', i', wa', wb'. split; [now right|]. now split.
Qed.

(** C5.  [findNearbyWiFi] never fails its caller.  When the upstream call
    throws it returns the empty sequence; when the text of the response has
    no bracketed array, or parsing or mapping it throws, it returns the
    fixed list of three samples: Starbucks_Guest, Library_Free_WiFi and
    DailyGrind_Secure, at 150, 300 and 450 with strengths 92, 85 and 78. *)
Theorem findNearbyWiFi_never_fails (lat lng : JsNum) (w : World) :
  (exists hs w', findNearbyWiFi lat lng w = (Normal hs, w')) /\
  (forall e, gemini w lat lng = Throw e ->
             fst (findNearbyWiFi lat lng w) = Normal []) /\
  (forall response_text,
      gemini w lat lng = Normal response_text ->
      ~ bracketed (default "" response_text) \/
      (exists jsonMatch e,
          match_array (default "" response_text) = Some jsonMatch /\
          JSON_parse jsonMatch = Throw e) \/
      (exists jsonMatch data e w1,
          match_array (default "" response_text) = Some jsonMatch /\
          JSON_parse jsonMatch = Normal data /\
          Array_map normalize data w = (Throw e, w1)) ->
      fst (findNearbyWiFi lat lng w) = Normal fallback_hotspots) /\
  map (fun h => (name h, distanceValue h, signalStrength h)) fallback_hotspots
  = [ (JStr "Starbucks_Guest", JNum (Fin 150), Fin 92);
      (JStr "Library_Free_WiFi", JNum (Fin 300), Fin 85);
      (JStr "DailyGrind_Secure", JNum (Fin 450), Fin 78) ].
Proof.
  destruct (findNearbyWiFi_outcome lat lng w) as (hs & w' & Hrun & Hout).
  split; [eauto|]. rewrite Hrun. cbn [fst]. split; [|split; [|reflexivity]].
  - intros e He. destruct Hout; congruence.
  - intros rt Hrt Hfail.
    destruct Hout as [e He | rt' Hrt' _ | rt' j elems hs w1 Hrt' Hm Hp Hmap];
      [congruence|reflexivity|exfalso].
    assert (rt' = rt) as -> by congruence.
    destruct Hfail as [Hno | [(j' & e & Hm' & Hp') | (j' & data & e & w2 & Hm' & Hp' & Hmap')]].
    + apply match_array_None in Hno. congruence.
    + assert (j' = j) as -> by congruence. congruence.
    + assert (j' = j) as -> by congruence.
      assert (data = JArr elems) as -> by congruence.
      cbn [Array_map] in Hmap'. congruence.
Qed.

(** C4.  [retrievePasswordEthically] applies its policy in order: a hotspot
    whose security is Open or Public gets no password, even when one is
    stored on it; otherwise a hotspot that carries a password gets exactly
    that password back; otherwise it gets no password and the message that
    no shared password was found. *)
Theorem retrieval_policy (hotspot : WiFiHotspot) (w : World) :
  let result := fst (retrievePasswordEthically hotspot w) in
  let public := security hotspot = JStr "Open" \/ security hotspot = JStr "Public" in
  (public ->
   result = Normal {| result_password := None; message := public_network_message |}) /\
  (~ public -> ToBoolean (password hotspot) = true ->
   result = Normal {| result_password := Some (password hotspot);
                      message := password_retrieved_message |}) /\
  (~ public -> ToBoolean (password hotspot) = false ->
   result = Normal {| result_password := None; message := not_found_message |}).
Proof.
  cbv zeta. unfold retrievePasswordEthically, bind, sleep. cbv beta iota.
  assert (strict_eq_str (security hotspot) "Open" || strict_eq_str (security hotspot) "Public"
          = true <->
          security hotspot = JStr "Open" \/ security hotspot = JStr "Public") as Hpub.
  { rewrite orb_true_iff. unfold strict_eq_str.
    destruct (security hotspot) as [| | | |s| |];
      try (split; [intros [?|?]; discriminate | intros [?|?]; discriminate]).
    rewrite !String.eqb_eq. split; (intros [?|?]; [left|right]; congruence). }
  destruct (strict_eq_str (security hotspot) "Open" || strict_eq_str (security hotspot) "Public")
    eqn:Hsec.
  - assert (security hotspot = JStr "Open" \/ security hotspot = JStr "Public") as Hp
        by now apply Hpub.
    split; [reflexivity|]. split; intros Hn; contradiction.
  - split; [|split].
    + intros Hp. apply Hpub in Hp. discriminate.
    + intros _ ->. reflexivity.
    + intros _ ->. reflexivity.
Qed.

(** C10.  [retrievePasswordEthically] is deterministic and depends only on
    the security and password of the hotspot: for two hotspots that agree
    on both, any two runs return equal results. *)
Theorem retrieval_depends_on_security_and_password
        (hotspot1 hotspot2 : WiFiHotspot) (w1 w2 : World) :
  security hotspot1 = security hotspot2 ->
  password hotspot1 = password hotspot2 ->
  fst (retrievePasswordEthically hotspot1 w1) = fst (retrievePasswordEthically hotspot2 w2).
Proof.
  intros Hs Hp. unfold retrievePasswordEthically, bind, sleep. cbv beta iota.
  rewrite Hs, Hp.
  destruct (strict_eq_str (security hotspot2) "Open"
            || strict_eq_str (security hotspot2) "Public"); [reflexivity|].
  destruct (ToBoolean (password hotspot2)); reflexivity.
Qed.

End Claims.

(** ** The stable sort *)

Section SortFacts.
Context {A : Type} (comparefn : A -> A -> Completion JsNum) (P : A -> Prop).
Hypothesis comparefn_total : total_on comparefn P.

Local Notation "a <~ b" := (not_after comparefn a b) (at level 70).

Lemma insert_ordered_spec (x : A) (l : list A) :
  P x -> Forall P l ->
  exists r,
    insert_ordered comparefn x l = Normal r /\
    Permutation (x :: l) r /\
    (Sorted (not_after comparefn) l -> Sorted (not_after comparefn) r) /\
    (forall z, z <~ x -> HdRel (not_after comparefn) z l -> HdRel (not_after comparefn) z r) /\
    (HdRel (not_after comparefn) x l -> r = x :: l).
Proof.
  intros Px Pl. induction Pl as [|y t Py Pt IH].
  - exists [x]. repeat split; auto.
  - cbn [insert_ordered].
    destruct (comparefn_total x y Px Py) as (v & Hv & Hgt). rewrite Hv. cbn [cbind].
    destruct (sign_of v) eqn:Hsign.
    1,2: exists (x :: y :: t); repeat split; auto;
         intros Hs; constructor; auto; constructor; exists v; split; auto; congruence.
    destruct IH as (r & Hr & Hperm & Hsorted & Hhd & _). rewrite Hr. cbn [cbind].
    exists (y :: r). split; [reflexivity|]. split; [|split; [|split]].
    + rewrite perm_swap. now constructor.
    + intros Hs. apply Sorted_inv in Hs as [Hs Hy]. constructor; auto.
    + intros z _ Hz. apply HdRel_inv in Hz. now constructor.
    + intros Hx. apply HdRel_inv in Hx as (v' & Hv' & Hle).
      rewrite Hv in Hv'. injection Hv' as <-. contradiction.
Qed.

Lemma sort_stable_spec (l : list A) :
  Forall P l ->
  exists r,
    sort_stable comparefn l = Normal r /\
    Permutation l r /\
    Sorted (not_after comparefn) r.
Proof.
  intros Pl. induction Pl as [|x t Px Pt IH].
  - exists []. repeat split; auto.
  - destruct IH as (s & Hs & Hperm & Hsorted). cbn [sort_stable]. rewrite Hs. cbn [cbind].
    assert (Forall P s) as Ps by now rewrite <- Hperm.
    destruct (insert_ordered_spec x s Px Ps) as (r & Hr & Hperm' & Hsorted' & _).
    exists r. split; [exact Hr|]. split; [|auto].
    now rewrite <- Hperm', <- Hperm.
Qed.

Lemma sort_stable_sorted (l : list A) :
  Forall P l ->
  Sorted (not_after comparefn) l ->
  sort_stable comparefn l = Normal l.
Proof.
  intros Pl. induction Pl as [|x t Px Pt IH]; [reflexivity|].
  intros Hs. apply Sorted_inv in Hs as [Hs Hx].
  cbn [sort_stable]. rewrite (IH Hs). cbn [cbind].
  destruct (insert_ordered_spec x t Px Pt) as (r & Hr & _ & _ & _ & Hfix).
  now rewrite Hr, (Hfix Hx).
Qed.

End SortFacts.

(** ** Claims about the sorted view *)

Lemma sign_of_Z (z : Z) : sign_of (num_of_Z z) = (z ?= 0)%Z.
Proof. unfold sign_of, num_of_Z, Qcompare, inject_Z. simpl. now rewrite Z.mul_1_r. Qed.

Lemma num_or_number (n : JsNum) : num_or n (Fin 0) <> NaN.
Proof. unfold num_or. destruct n; simpl; try discriminate. destruct (Qeq_bool q 0); discriminate. Qed.

Lemma Qsub_sign (x y : Q) : ((x - y ?= 0) <> Gt <-> x <= y)%Q.
Proof.
  rewrite <- Qle_alt. unfold Qle, Qminus, Qplus, Qopp. simpl. lia.
Qed.

Lemma sign_sub_le (x y : JsNum) :
  x <> NaN -> y <> NaN -> (sign_of (num_sub x y) <> Gt <-> num_le x y).
Proof.
  intros Hx Hy. unfold num_le.
  destruct x as [| |x|], y as [| |y|]; try contradiction; cbn;
    try (split; [intros _; reflexivity | intros _; discriminate]);
    try (split; [intros Hgt; now contradiction Hgt | discriminate]).
  rewrite Qle_bool_iff. apply Qsub_sign.
Qed.

Lemma num_le_total (x y : JsNum) : x <> NaN -> y <> NaN -> num_le x y \/ num_le y x.
Proof.
  intros Hx Hy. unfold num_le.
  destruct x as [| |x|], y as [| |y|]; try contradiction; cbn; auto.
  rewrite !Qle_bool_iff. destruct (Qlt_le_dec x y) as [Hlt%Qlt_le_weak|]; auto.
Qed.

Lemma num_le_trans (x y z : JsNum) : num_le x y -> num_le y z -> num_le x z.
Proof.
  unfold num_le.
  destruct x as [| |x|], y as [| |y|], z as [| |z|]; cbn; try discriminate; auto.
  rewrite !Qle_bool_iff. apply Qle_trans.
Qed.

Lemma Sorted_impl_on {A} (P : A -> Prop) (R R' : A -> A -> Prop) (l : list A) :
  (forall a b, P a -> P b -> R a b -> R' a b) ->
  Forall P l -> Sorted R l -> Sorted R' l.
Proof.
  intros HR Pl. induction Pl as [|x t Px Pt IH]; [constructor|].
  intros Hs. apply Sorted_inv in Hs as [Hs Hx]. constructor; [auto|].
  destruct Hx as [|y t' Hxy]; constructor.
  apply Forall_inv in Pt. auto.
Qed.

Section Ranking.
Context `{Runtime}.

Lemma compareHotspots_value (k : SortKey) (a b : WiFiHotspot) :
  sortable k a = true -> sortable k b = true ->
  compareHotspots k a b
  = Normal match k with
           | Key_name => num_of_Z (localeCompare (name_key a) (name_key b))
           | Key_distanceValue => num_sub (distance_key a) (distance_key b)
           | Key_signalStrength => num_sub (strength_key b) (strength_key a)
           end.
Proof.
  unfold sortable, compareHotspots, name_key, distance_key, strength_key.
  destruct k; [reflexivity| |].
  - assert (forall v, match v with JUndefined | JNum _ => true | _ => false end = true ->
              ToNumber (js_or v (JNum (Fin 0)))
              = Normal match v with JNum n => num_or n (Fin 0) | _ => Fin 0 end) as Hkey.
    { intros [| | |n| | |]; try discriminate; intros _; [reflexivity|].
      unfold js_or, num_or. cbn [ToBoolean]. destruct (num_truthy n); reflexivity. }
    intros Ha Hb. now rewrite (Hkey _ Ha), (Hkey _ Hb).
  - destruct (name a); try discriminate. destruct (name b); try discriminate.
    reflexivity.
Qed.

Lemma not_after_displayed (k : SortKey) (a b : WiFiHotspot) :
  sortable k a = true -> sortable k b = true ->
  not_after (compareHotspots k) a b <-> displayed_order k a b.
Proof.
  intros Ha Hb. unfold not_after. rewrite (compareHotspots_value k a b Ha Hb).
  assert (forall v (Q : Prop), (sign_of v <> Gt <-> Q) ->
            (exists v', Normal v = Normal v' /\ sign_of v' <> Gt) <-> Q) as Hex.
  { intros v Q HQ. rewrite <- HQ. split; [intros (v' & [= <-] & Hv); exact Hv | eauto]. }
  apply Hex. destruct k; cbn [displayed_order].
  - apply sign_sub_le; apply num_or_number.
  - apply sign_sub_le; unfold distance_key;
      destruct (distanceValue _); try discriminate; apply num_or_number.
  - rewrite sign_of_Z. rewrite Z.compare_gt_iff. lia.
Qed.

Lemma compareHotspots_total (k : SortKey) :
  (k = Key_name -> collation_total) ->
  total_on (compareHotspots k) (fun h => sortable k h = true).
Proof.
  intros Hcoll a b Ha Hb. eexists. split; [apply compareHotspots_value; assumption|].
  intros Hgt. apply not_after_displayed; [assumption..|].
  destruct k; cbn [displayed_order].
  - destruct (num_le_total (strength_key b) (strength_key a)) as [Hle|Hle];
      try apply num_or_number; [|exact Hle].
    apply sign_sub_le in Hle; try apply num_or_number. contradiction.
  - assert (forall h, distance_key h <> NaN) as Hnum.
    { intros h. unfold distance_key. destruct (distanceValue h); try discriminate.
      apply num_or_number. }
    destruct (num_le_total (distance_key a) (distance_key b)) as [Hle|Hle];
      try apply Hnum; [|exact Hle].
    apply sign_sub_le in Hle; try apply Hnum. contradiction.
  - apply (Hcoll eq_refl). rewrite sign_of_Z in Hgt. now apply Z.compare_gt_iff in Hgt.
Qed.

(** A run of [sortedHotspots]: the sorted elements are in a new array, and
    the array of the hotspots is as it was. *)
Lemma sortedHotspots_run (h : Heap) (hotspots : nat) (hs out : list WiFiHotspot) (k : SortKey) :
  h !! hotspots = Some hs ->
  sort_stable (compareHotspots k) hs = Normal out ->
  exists view h',
    sortedHotspots hotspots k h = (Normal view, h') /\
    h' !! view = Some out /\
    h' !! hotspots = Some hs.
Proof.
  intros Hhs Hout. exists (fresh (dom h)), (<[fresh (dom h) := out]> h).
  assert (fresh (dom h) <> hotspots) as Hne.
  { intros Heq. apply (is_fresh (dom h)). rewrite Heq. apply elem_of_dom. eauto. }
  split; [|split].
  - unfold sortedHotspots, bind, spread, Array_sort. rewrite Hhs.
    rewrite lookup_insert_eq, Hout. now rewrite insert_insert_eq.
  - apply lookup_insert_eq.
  - now rewrite lookup_insert_ne.
Qed.

(** C6.  For every list of hotspots and each sort key, the displayed
    sequence is the list sorted: it has the same hotspots, by name in
    non-decreasing order of the collation, by distanceValue in
    non-decreasing numeric order with a missing value as 0, and by
    signalStrength in non-increasing numeric order with a missing value
    as 0. *)
Theorem sortedHotspots_sorted (h : Heap) (hotspots : nat) (hs : list WiFiHotspot)
        (k : SortKey) :
  h !! hotspots = Some hs ->
  Forall (fun x => sortable k x = true) hs ->
  (k = Key_name -> collation_total) ->
  exists view h' out,
    sortedHotspots hotspots k h = (Normal view, h') /\
    h' !! view = Some out /\
    Permutation hs out /\
    Sorted (displayed_order k) out /\
    (k <> Key_name -> StronglySorted (displayed_order k) out).
Proof.
  intros Hhs Htyped Hcoll.
  destruct (sort_stable_spec _ _ (compareHotspots_total k Hcoll) hs Htyped)
    as (out & Hout & Hperm & Hsorted).
  destruct (sortedHotspots_run h hotspots hs out k Hhs Hout) as (view & h' & Hrun & Hview & _).
  exists view, h', out. split; [exact Hrun|]. split; [exact Hview|]. split; [exact Hperm|].
  assert (Sorted (displayed_order k) out) as Hdisp.
  { apply (Sorted_impl_on (fun x => sortable k x = true) (not_after (compareHotspots k)));
      [| |exact Hsorted].
    - intros a b Ha Hb. now apply not_after_displayed.
    - now rewrite <- Hperm. }
  split; [exact Hdisp|].
  intros Hk. apply Sorted_StronglySorted; [|exact Hdisp].
  intros a b c. destruct k; [| |contradiction]; cbn [displayed_order];
    eauto using num_le_trans.
Qed.

(** C7.  The sort is non-destructive and idempotent: computing the sorted
    view leaves the list of hotspots as it was, the view has the length and
    the hotspots of the list, and sorting the view again yields the same
    sequence. *)
Theorem sortedHotspots_nondestructive_idempotent
        (h : Heap) (hotspots : nat) (hs : list WiFiHotspot) (k : SortKey) :
  h !! hotspots = Some hs ->
  Forall (fun x => sortable k x = true) hs ->
  (k = Key_name -> collation_total) ->
  exists view h' out,
    sortedHotspots hotspots k h = (Normal view, h') /\
    h' !! view = Some out /\
    h' !! hotspots = Some hs /\
    length out = length hs /\
    Permutation hs out /\
    exists view2 h'',
      sortedHotspots view k h' = (Normal view2, h'') /\
      h'' !! view2 = Some out /\
      h'' !! view = Some out /\
      h'' !! hotspots = Some hs.
Proof.
  intros Hhs Htyped Hcoll.
  pose proof (compareHotspots_total k Hcoll) as Htotal.
  destruct (sort_stable_spec _ _ Htotal hs Htyped) as (out & Hout & Hperm & Hsorted).
  destruct (sortedHotspots_run h hotspots hs out k Hhs Hout)
    as (view & h' & Hrun & Hview & Hkept).
  exists view, h', out. split; [exact Hrun|]. split; [exact Hview|]. split; [exact Hkept|].
  split; [now rewrite Hperm|]. split; [exact Hperm|].
  assert (sort_stable (compareHotspots k) out = Normal out) as Hagain.
  { apply (sort_stable_sorted _ _ Htotal); [now rewrite <- Hperm | exact Hsorted]. }
  destruct (sortedHotspots_run h' view out out k Hview Hagain)
    as (view2 & h'' & Hrun2 & Hview2 & Hkept2).
  exists view2, h''. split; [exact Hrun2|]. split; [exact Hview2|]. split; [exact Hkept2|].
  revert Hrun2. unfold sortedHotspots, bind, spread, Array_sort. rewrite Hview.
  rewrite lookup_insert_eq, Hagain. intros [= _ <-].
  rewrite insert_insert_eq.
  rewrite lookup_insert_ne; [exact Hkept|].
  intros Heq. apply (is_fresh (dom h')). rewrite Heq. apply elem_of_dom. eauto.
Qed.

End Ranking.

(** ** Further properties of the resolver *)

Section NormalizedFields.
Context `{Runtime}.

Lemma normalize_fields (item : JsVal) (index : nat) (w : World) (dv : JsVal) (s : string) :
  Get item "distanceValue" = Normal dv ->
  ToString dv = Normal s ->
  exists h w',
    normalize item index w = (Normal h, w') /\
    id h = "wifi-" ++ num_toString (num_of_Z (Z.of_nat index)) ++ "-"
             ++ num_toString (num_of_Z (clock_src w (clock_pos w))) /\
    name h = js_or (prop item "name") (JStr "Unknown Hotspot") /\
    address h = js_or (prop item "address") (JStr "Nearby") /\
    security h
    = js_or (prop item "security")
        (if ToBoolean (js_and (prop item "password")
                         (JBool (negb (strict_eq_str (prop item "password") "None"))))
         then JStr "WPA2" else JStr "Open") /\
    password h
    = (if strict_eq_str (prop item "password") "None"
       then JUndefined else prop item "password") /\
    type h = js_or (prop item "type") (JStr "Public Space") /\
    clock_pos w' = S (clock_pos w) /\
    random_pos w' = (random_pos w + if ToBoolean dv then 0 else 2)%nat /\
    console w' = console w /\ waited w' = waited w /\
    gemini w' = gemini w /\ random_src w' = random_src w /\ clock_src w' = clock_src w.
Proof.
  intros Hdv Hs.
  assert (exists q, ToNumber (js_or dv (JNum (Fin 100))) = Normal q) as [q Hq].
  { destruct (ToString_ToNumber _ _ Hs) as [q0 Hq0].
    unfold js_or. destruct (ToBoolean dv); eauto. }
  unfold normalize, or_else.
  rewrite (Get_prop _ _ "name" _ Hdv), (Get_prop _ _ "address" _ Hdv), Hdv.
  rewrite (Get_prop _ _ "security" _ Hdv), (Get_prop _ _ "password" _ Hdv).
  rewrite (Get_prop _ _ "type" _ Hdv).
  cbv [bind lift ret Date_now].
  destruct (ToBoolean dv) eqn:Htruthy.
  - cbv beta iota. rewrite Hs. cbv beta iota. rewrite Hq. cbv beta iota.
    do 2 eexists. split; [reflexivity|]. cbn [id name address security password type
      clock_pos random_pos console waited gemini random_src clock_src].
    rewrite Nat.add_0_r. repeat split.
  - cbv [bind lift ret random_distance Math_random]. cbn [ToString].
    cbv beta iota. rewrite Hq. cbv beta iota.
    do 2 eexists. split; [reflexivity|]. cbn [id name address security password type
      clock_pos random_pos console waited gemini random_src clock_src].
    rewrite Nat.add_comm. repeat split.
Qed.

(** Whatever its outcome, the callback logs nothing and waits for nothing. *)
Lemma normalize_quiet (item : JsVal) (index : nat) (w w' : World) (r : Completion WiFiHotspot) :
  normalize item index w = (r, w') -> console w' = console w /\ waited w' = waited w.
Proof.
  unfold normalize, or_else, random_distance, Math_random, Date_now, bind, lift, ret.
  repeat match goal with
         | |- context [match ?c with Normal _ => _ | Throw _ => _ end] => destruct c
         | |- context [if ?b then _ else _] => destruct b
         end; intros [= <- <-]; split; reflexivity.
Qed.

End NormalizedFields.

Lemma js_or_truthy (a b : JsVal) : ToBoolean b = true -> ToBoolean (js_or a b) = true.
Proof. unfold js_or. destruct (ToBoolean a) eqn:Ha; auto. Qed.

Lemma strict_eq_str_false (v : JsVal) (s : string) : strict_eq_str v s = false -> v <> JStr s.
Proof. intros Hv ->. cbn in Hv. now rewrite String.eqb_refl in Hv. Qed.

Section Mapping.
Context `{Runtime}.

(** The mapping of records that all normalize. *)
Lemma map_from_spec (elems : list JsVal) (index : nat) (w : World) :
  Forall normalizes elems ->
  exists hs w',
    map_from normalize elems index w = (Normal hs, w') /\
    length hs = length elems /\
    (forall i item h, elems !! i = Some item -> hs !! i = Some h ->
       id h = "wifi-" ++ num_toString (num_of_Z (Z.of_nat (index + i))) ++ "-"
                ++ num_toString (num_of_Z (clock_src w (clock_pos w + i))) /\
       name h = js_or (prop item "name") (JStr "Unknown Hotspot") /\
       password h = (if strict_eq_str (prop item "password") "None"
                     then JUndefined else prop item "password")) /\
    clock_pos w' = (clock_pos w + length elems)%nat /\
    clock_src w' = clock_src w /\ console w' = console w.
Proof.
  intros Hall. revert index w. induction Hall as [|x rest (dv & s & Hdv & Hs) _ IH]; intros index w.
  - exists [], w. cbn. split; [reflexivity|]. split; [reflexivity|].
    split; [|rewrite Nat.add_0_r; auto].
    intros i item h Hi. now rewrite lookup_nil in Hi.
  - destruct (normalize_fields x index w dv s Hdv Hs)
      as (h & w1 & Hn & Hid & Hname & _ & _ & Hpw & _ & Hclock & _ & Hcons & _ & _ & _ & Hsrc).
    destruct (IH (S index) w1) as (hs & w' & Hmap & Hlen & Hfields & Hclock' & Hsrc' & Hcons').
    exists (h :: hs), w'. split; [|split; [|split; [|split; [|split]]]].
    + cbn [map_from]. unfold bind at 1. rewrite Hn. unfold bind at 1. rewrite Hmap. reflexivity.
    + cbn. now rewrite Hlen.
    + intros [|i] item h0; cbn.
      * intros [= <-] [= <-]. rewrite !Nat.add_0_r. auto.
      * intros Hi Hh. destruct (Hfields i item h0 Hi Hh) as (Hid' & Hrest).
        split; [|exact Hrest]. rewrite Hid', Hsrc, Hclock.
        now rewrite <- !Nat.add_succ_comm.
    + rewrite Hclock', Hclock. cbn. lia.
    + congruence.
    + congruence.
Qed.

End Mapping.

Lemma append_inj_l (s x y : string) : s ++ x = s ++ y -> x = y.
Proof.
  induction s as [|c s IH]; [auto|].
  change (String c (s ++ x) = String c (s ++ y) -> x = y). intros [= Heq]. auto.
Qed.

Lemma prefix_before_char (c : ascii) (a b x y : string) :
  occurs c a = false -> occurs c b = false ->
  a ++ String c x = b ++ String c y -> a = b.
Proof.
  revert b. induction a as [|c1 a IH]; intros [|c2 b]; auto.
  - change (false = false -> occurs c (String c2 b) = false ->
            String c x = String c2 (b ++ String c y) -> "" = String c2 b).
    intros _ Hb [= <- _]. cbn in Hb. now rewrite Ascii.eqb_refl in Hb.
  - change (occurs c (String c1 a) = false -> false = false ->
            String c1 (a ++ String c x) = String c y -> String c1 a = "").
    intros Ha _ [= -> _]. cbn in Ha. now rewrite Ascii.eqb_refl in Ha.
  - change (occurs c (String c1 a) = false -> occurs c (String c2 b) = false ->
            String c1 (a ++ String c x) = String c2 (b ++ String c y) ->
            String c1 a = String c2 b).
    cbn [occurs]. intros [_ Ha]%orb_false_iff [_ Hb]%orb_false_iff [= -> Heq].
    f_equal. eauto.
Qed.

Section Identifiers.
Context `{Runtime}.

Lemma mapped_normalizes (elems : list JsVal) (index : nat) (w w' : World)
      (hs : list WiFiHotspot) :
  map_from normalize elems index w = (Normal hs, w') -> Forall normalizes elems.
Proof.
  intros Hmap%map_from_normalize.
  induction Hmap as [|item h elems hs (i & w1 & w2 & Hn) _ IH]; constructor; [|exact IH].
  exact (normalize_returns_inv _ _ _ _ _ Hn).
Qed.

Lemma fallback_ids_distinct : NoDup (map id fallback_hotspots).
Proof.
  cbn. repeat (apply NoDup_cons; split; [rewrite ?elem_of_cons, ?elem_of_nil; intuition discriminate|]).
  apply NoDup_nil_2.
Qed.

(** X4.  The ids of the hotspots of one result are pairwise distinct, on a
    host that prints the indices of the records differently and without a
    dash. *)
Theorem returned_ids_distinct (lat lng : JsNum) (w : World) :
  prints_indices (length (parsed_records lat lng w)) ->
  exists hs w', findNearbyWiFi lat lng w = (Normal hs, w') /\ NoDup (map id hs).
Proof.
  intros Hprint.
  destruct (findNearbyWiFi_outcome lat lng w) as (hs & w' & Hrun & Hout).
  exists hs, w'. split; [exact Hrun|].
  destruct Hout as [e He | rt Hrt Hfail | rt jm elems hs w1 Hrt Hm Hp Hmap].
  - constructor.
  - exact fallback_ids_distinct.
  - assert (parsed_records lat lng w = elems) as Hrec.
    { unfold parsed_records. now rewrite Hrt, Hm, Hp. }
    rewrite Hrec in Hprint.
    destruct (map_from_spec elems 0 w (mapped_normalizes _ _ _ _ _ Hmap))
      as (hs' & w2 & Hmap' & Hlen & Hfields & _).
    rewrite Hmap in Hmap'. injection Hmap' as <- _.
    change (map id hs) with (id <$> hs). apply NoDup_alt. intros i j x.
    rewrite !list_lookup_fmap.
    destruct (hs !! i) as [hi|] eqn:Hi; [|discriminate].
    destruct (hs !! j) as [hj|] eqn:Hj; [|discriminate].
    cbn. intros [= <-] [= Heq].
    assert (i < length elems)%nat as Hlt_i by (rewrite <- Hlen; eauto using lookup_lt_Some).
    assert (j < length elems)%nat as Hlt_j by (rewrite <- Hlen; eauto using lookup_lt_Some).
    destruct (lookup_lt_is_Some_2 elems i Hlt_i) as [xi Hxi].
    destruct (lookup_lt_is_Some_2 elems j Hlt_j) as [xj Hxj].
    destruct (Hfields i xi hi Hxi Hi) as (Hid_i & _).
    destruct (Hfields j xj hj Hxj Hj) as (Hid_j & _).
    rewrite Hid_i, Hid_j in Heq. cbn [Nat.add] in Heq.
    apply append_inj_l in Heq.
    destruct (Hprint i j Hlt_i Hlt_j) as [Hdash_i Hinj].
    destruct (Hprint j i Hlt_j Hlt_i) as [Hdash_j _].
    apply Hinj. symmetry.
    exact (prefix_before_char _ _ _ _ _ Hdash_j Hdash_i Heq).
Qed.

End Identifiers.

Lemma spec_strength_antitone (d1 d2 : Q) :
  (d1 <= d2)%Q -> (spec_strength d2 <= spec_strength d1)%Z.
Proof.
  intros Hd. unfold spec_strength.
  assert (Qfloor (d1 / 10) <= Qfloor (d2 / 10))%Z.
  { apply Qfloor_resp_le. unfold Qdiv. apply Qmult_le_compat_r; [exact Hd|discriminate]. }
  lia.
Qed.

Lemma draw_range (w : World) (i : nat) :
  (forall k, 0 <= random_src w k < 1)%Q ->
  exists z, draw w i = num_of_Z z /\ (0 <= z < 500)%Z.
Proof.
  intros Hr. destruct (Hr (random_pos w + i)%nat) as [Hlo Hhi].
  exists (Qfloor (random_src w (random_pos w + i) * 500)). split; [reflexivity|]. split.
  - change 0%Z with (Qfloor 0). apply Qfloor_resp_le.
    apply Qmult_le_0_compat; [exact Hlo|discriminate].
  - assert (random_src w (random_pos w + i) * 500 < 500)%Q as Hlt.
    { change 500%Q with (1 * 500)%Q at 2. apply Qmult_lt_compat_r; [reflexivity|exact Hhi]. }
    apply Z.lt_nge. intros Hge.
    apply (Qlt_not_le _ _ Hlt).
    apply Qle_trans with (inject_Z (Qfloor (random_src w (random_pos w + i) * 500))).
    + change 500%Q with (inject_Z 500). now rewrite <- Zle_Qle.
    + apply Qfloor_le.
Qed.

Section ResolverEdges.
Context `{Runtime}.

Lemma normalize_null_throws (item : JsVal) (index : nat) (w : World) :
  item = JNull \/ item = JUndefined ->
  exists w', normalize item index w = (Throw TypeError, w').
Proof. intros [-> | ->]; eexists; reflexivity. Qed.

Lemma map_from_null_throws (elems : list JsVal) (index : nat) (w : World) :
  In JNull elems \/ In JUndefined elems ->
  exists e w', map_from normalize elems index w = (Throw e, w').
Proof.
  revert index w. induction elems as [|x rest IH]; intros index w Hin.
  - destruct Hin as [[] | []].
  - cbn [map_from]. unfold bind at 1.
    destruct (normalize x index w) as [[h|e] w1] eqn:Hx; [|eauto].
    assert (In JNull rest \/ In JUndefined rest) as Hrest.
    { destruct Hin as [[-> | Hin] | [-> | Hin]]; auto.
      - destruct (normalize_null_throws JNull index w) as [w2 Hn]; [auto|]. congruence.
      - destruct (normalize_null_throws JUndefined index w) as [w2 Hn]; [auto|]. congruence. }
    unfold bind at 1. destruct (IH (S index) w1 Hrest) as (e & w' & ->). eauto.
Qed.

Lemma map_from_quiet (elems : list JsVal) (index : nat) (w w' : World)
      (r : Completion (list WiFiHotspot)) :
  map_from normalize elems index w = (r, w') -> console w' = console w.
Proof.
  revert index w r w'. induction elems as [|x rest IH]; intros index w r w'.
  - cbn. now intros [= <- <-].
  - cbn [map_from]. unfold bind at 1.
    destruct (normalize x index w) as [[h|e] w1] eqn:Hx.
    + apply normalize_quiet in Hx as [Hx _]. unfold bind at 1.
      destruct (map_from normalize rest (S index) w1) as [[hs|e] w2] eqn:Hrest;
        apply IH in Hrest; cbn; intros [= <- <-]; congruence.
    + apply normalize_quiet in Hx as [Hx _]. now intros [= <- <-].
Qed.

(** X1.  An empty array is a result of its own: when the bracketed text
    parses to the empty array, [findNearbyWiFi] returns the empty list, not
    the samples, and leaves its environment as it was. *)
Theorem empty_array_gives_empty_list (lat lng : JsNum) (w : World)
        (response_text : option string) (jsonMatch : string) :
  gemini w lat lng = Normal response_text ->
  match_array (default "" response_text) = Some jsonMatch ->
  JSON_parse jsonMatch = Normal (JArr []) ->
  findNearbyWiFi lat lng w = (Normal [], w).
Proof.
  intros Hrt Hm Hp. unfold findNearbyWiFi, try_catch, generateContent, bind, lift.
  rewrite Hrt. cbv zeta. rewrite Hm, Hp. reflexivity.
Qed.

(** X2.  One [null] record discards all of them: when the parsed array has
    a [null] element, whatever the other records are, the result is the list
    of samples. *)
Theorem null_record_discards_all (lat lng : JsNum) (w : World)
        (response_text : option string) (jsonMatch : string) (elems : list JsVal) :
  gemini w lat lng = Normal response_text ->
  match_array (default "" response_text) = Some jsonMatch ->
  JSON_parse jsonMatch = Normal (JArr elems) ->
  In JNull elems ->
  fst (findNearbyWiFi lat lng w) = Normal fallback_hotspots.
Proof.
  intros Hrt Hm Hp Hnull.
  destruct (findNearbyWiFi_outcome lat lng w) as (hs & w' & Hrun & Hout).
  rewrite Hrun. cbn [fst].
  destruct Hout as [e He | rt Hrt' Hfail | rt jm elems' hs w1 Hrt' Hm' Hp' Hmap];
    [congruence|reflexivity|exfalso].
  assert (rt = response_text) as -> by congruence.
  assert (jm = jsonMatch) as -> by congruence.
  assert (elems' = elems) as -> by congruence.
  destruct (map_from_null_throws elems 0 w (or_introl Hnull)) as (e & w2 & Hthrow).
  congruence.
Qed.

(** X3.  When every record of the parsed array normalizes, the result has
    one hotspot per record, in the order of the array: the hotspot at
    position [i] carries the index [i] and the reading of the clock in its
    id, and the name and password of the record at position [i]. *)
Theorem records_kept_in_order (lat lng : JsNum) (w : World)
        (response_text : option string) (jsonMatch : string) (elems : list JsVal) :
  gemini w lat lng = Normal response_text ->
  match_array (default "" response_text) = Some jsonMatch ->
  JSON_parse jsonMatch = Normal (JArr elems) ->
  Forall normalizes elems ->
  exists hs w',
    findNearbyWiFi lat lng w = (Normal hs, w') /\
    length hs = length elems /\
    forall i item h, elems !! i = Some item -> hs !! i = Some h ->
      id h = "wifi-" ++ index_text i ++ "-"
               ++ num_toString (num_of_Z (clock_src w (clock_pos w + i))) /\
      name h = js_or (prop item "name") (JStr "Unknown Hotspot") /\
      password h = (if strict_eq_str (prop item "password") "None"
                    then JUndefined else prop item "password").
Proof.
  intros Hrt Hm Hp Hall.
  destruct (map_from_spec elems 0 w Hall) as (hs & w' & Hmap & Hlen & Hfields & _).
  exists hs, w'. split; [|split; [exact Hlen|exact Hfields]].
  unfold findNearbyWiFi, try_catch, generateContent, bind, lift.
  rewrite Hrt. cbv zeta. rewrite Hm, Hp. cbn [Array_map]. rewrite Hmap. reflexivity.
Qed.

(** X5.  Every hotspot that [findNearbyWiFi] returns has a name, an
    address, a security and a type that are truthy: none of them is
    undefined, null or the empty string. *)
Theorem returned_fields_nonempty (lat lng : JsNum) (w : World) :
  exists hs w',
    findNearbyWiFi lat lng w = (Normal hs, w') /\
    Forall (fun h => ToBoolean (name h) = true /\ ToBoolean (address h) = true /\
                     ToBoolean (security h) = true /\ ToBoolean (type h) = true) hs.
Proof.
  destruct (findNearbyWiFi_outcome lat lng w) as (hs & w' & Hrun & Hout).
  exists hs, w'. split; [exact Hrun|].
  destruct Hout as [e He | rt Hrt Hfail | rt jm elems hs w1 Hrt Hm Hp Hmap].
  - constructor.
  - repeat constructor.
  - apply map_from_normalize in Hmap. clear Hrun Hrt Hm Hp.
    induction Hmap as [|item h elems hs (i & wa & wb & Hn) _ IH]; [constructor|].
    constructor; [|exact IH].
    destruct (normalize_returns_inv _ _ _ _ _ Hn) as (dv & s & Hdv & Hs).
    destruct (normalize_fields item i wa dv s Hdv Hs)
      as (h' & w'' & Hn' & _ & Hname & Haddr & Hsec & _ & Htype & _).
    rewrite Hn in Hn'. injection Hn' as <- _.
    rewrite Hname, Haddr, Hsec, Htype.
    repeat split; apply js_or_truthy; try reflexivity.
    now destruct (ToBoolean (js_and _ _)).
Qed.

(** X6.  A record that gives no security is classified by its password:
    WPA2 when the hotspot keeps a password, Open otherwise.  Retrieval on
    such a hotspot returns the kept password, or the notice of a public
    network; it never reports that no password was found. *)
Theorem defaulted_security_follows_password (item : JsVal) (index : nat) (w : World)
        (dv : JsVal) (s : string) :
  Get item "distanceValue" = Normal dv ->
  ToString dv = Normal s ->
  ToBoolean (prop item "security") = false ->
  exists h w',
    normalize item index w = (Normal h, w') /\
    security h = (if ToBoolean (password h) then JStr "WPA2" else JStr "Open") /\
    forall w2,
      fst (retrievePasswordEthically h w2)
      = Normal (if ToBoolean (password h)
                then {| result_password := Some (password h);
                        message := password_retrieved_message |}
                else {| result_password := None; message := public_network_message |}).
Proof.
  intros Hdv Hs Hsec.
  destruct (normalize_fields item index w dv s Hdv Hs)
    as (h & w' & Hn & _ & _ & _ & Hsech & Hpw & _).
  exists h, w'. split; [exact Hn|].
  assert (security h = (if ToBoolean (password h) then JStr "WPA2" else JStr "Open")) as Hdef.
  { rewrite Hsech, Hpw. unfold js_or. rewrite Hsec. unfold js_and.
    destruct (strict_eq_str (prop item "password") "None") eqn:Hnone.
    - destruct (ToBoolean (prop item "password")) eqn:Hp; cbn; [reflexivity|].
      now rewrite Hp.
    - destruct (ToBoolean (prop item "password")) eqn:Hp; cbn; [reflexivity|].
      now rewrite Hp. }
  split; [exact Hdef|]. intros w2.
  unfold retrievePasswordEthically, bind, sleep. cbv beta iota. rewrite Hdef.
  destruct (ToBoolean (password h)); reflexivity.
Qed.

(** X7.  No hotspot returned by [findNearbyWiFi] carries the sentinel "None"
    as its password, and [retrievePasswordEthically] never returns it for
    one of them. *)
Theorem sentinel_never_returned (lat lng : JsNum) (w : World) :
  exists hs w',
    findNearbyWiFi lat lng w = (Normal hs, w') /\
    forall h, In h hs ->
      password h <> JStr "None" /\
      forall w2 result,
        fst (retrievePasswordEthically h w2) = Normal result ->
        result_password result <> Some (JStr "None").
Proof.
  destruct (findNearbyWiFi_outcome lat lng w) as (hs & w' & Hrun & Hout).
  exists hs, w'. split; [exact Hrun|].
  assert (forall h, In h hs -> password h <> JStr "None") as Hpw.
  { destruct Hout as [e He | rt Hrt Hfail | rt jm elems hs w1 Hrt Hm Hp Hmap].
    - intros h [].
    - intros h [<- | [<- | [<- | []]]]; discriminate.
    - apply map_from_normalize in Hmap. clear Hrun Hrt Hm Hp.
      induction Hmap as [|item h0 elems hs (i & wa & wb & Hn) _ IH]; [intros h []|].
      intros h [<- | Hin]; [|auto].
      destruct (normalize_returns_inv _ _ _ _ _ Hn) as (dv & s & Hdv & Hs).
      destruct (normalize_fields item i wa dv s Hdv Hs)
        as (h' & w'' & Hn' & _ & _ & _ & _ & Hpw & _).
      rewrite Hn in Hn'. injection Hn' as <- _. rewrite Hpw.
      destruct (strict_eq_str (prop item "password") "None") eqn:Hnone; [discriminate|].
      now apply strict_eq_str_false. }
  intros h Hin. split; [auto|]. intros w2 result.
  unfold retrievePasswordEthically, bind, sleep. cbv beta iota.
  destruct (strict_eq_str (security h) "Open" || strict_eq_str (security h) "Public");
    [intros [= <-]; discriminate|].
  destruct (ToBoolean (password h)); intros [= <-]; [|discriminate].
  cbn. intros [= Heq]. now apply (Hpw h Hin).
Qed.

(** X8.  The regular expression matches exactly the texts with a bracketed
    substring, and the match runs from the first opening bracket of the text
    to its last closing bracket. *)
Theorem match_spans_first_open_to_last_close (text : string) :
  (match_array text = None <-> ~ bracketed text) /\
  (forall jsonMatch,
      match_array text = Some jsonMatch ->
      exists pre mid post,
        jsonMatch = "[" ++ mid ++ "]" /\
        text = pre ++ "[" ++ mid ++ "]" ++ post /\
        occurs "[" pre = false /\ occurs "]" post = false).
Proof. split; [apply match_array_None | apply match_array_Some]. Qed.

(** X9.  What [findNearbyWiFi] logs: one line when the upstream call
    throws, one line when parsing or mapping throws, and nothing when the
    records are mapped or when the text has no bracketed substring, in which
    case the samples are returned silently. *)
Theorem console_accounting (lat lng : JsNum) (w : World) :
  exists hs w',
    findNearbyWiFi lat lng w = (Normal hs, w') /\
    (forall e, gemini w lat lng = Throw e ->
               console w' = (console w ++ ["Error finding WiFi:"])%list) /\
    (forall response_text,
        gemini w lat lng = Normal response_text ->
        (~ bracketed (default "" response_text) -> console w' = console w) /\
        (forall jsonMatch,
            match_array (default "" response_text) = Some jsonMatch ->
            match JSON_parse jsonMatch with
            | Normal data =>
                match fst (Array_map normalize data w) with
                | Normal _ => console w' = console w
                | Throw _ =>
                    console w' = (console w ++ ["Failed to parse Gemini response"])%list
                end
            | Throw _ => console w' = (console w ++ ["Failed to parse Gemini response"])%list
            end)).
Proof.
  unfold findNearbyWiFi, try_catch, generateContent.
  unfold bind at 1.
  destruct (gemini w lat lng) as [rt|e] eqn:Hup.
  2:{ cbn. do 2 eexists. split; [reflexivity|]. split; [reflexivity|]. discriminate. }
  cbv zeta. unfold bind at 1.
  destruct (match_array (default "" rt)) as [jm|] eqn:Hm.
  2:{ cbn. do 2 eexists. split; [reflexivity|]. split; [discriminate|].
      intros rt' [= <-]. split; [reflexivity|]. rewrite Hm. discriminate. }
  unfold bind at 1, lift at 1.
  destruct (JSON_parse jm) as [data|e] eqn:Hp.
  2:{ cbn. do 2 eexists. split; [reflexivity|]. split; [discriminate|].
      intros rt' [= <-]. split.
      - intros Hno%match_array_None. congruence.
      - rewrite Hm. intros j' [= <-]. now rewrite Hp. }
  unfold bind at 1.
  destruct (Array_map normalize data w) as [[hs|e] w1] eqn:Hmap.
  - cbn. do 2 eexists. split; [reflexivity|]. split; [discriminate|].
    intros rt' [= <-]. split.
    + intros Hno%match_array_None. congruence.
    + rewrite Hm. intros j' [= <-]. rewrite Hp, Hmap. cbn.
      destruct data; cbn in Hmap; try discriminate. eapply map_from_quiet; eassumption.
  - cbn. do 2 eexists. split; [reflexivity|]. split; [discriminate|].
    intros rt' [= <-]. split.
    + intros Hno%match_array_None. congruence.
    + rewrite Hm. intros j' [= <-]. rewrite Hp, Hmap. cbn. f_equal.
      destruct data; cbn in Hmap; try (now injection Hmap as _ <-).
      eapply map_from_quiet; eassumption.
Qed.

(** X10.  With draws of [Math.random] in [0, 1), the distance shown and the
    distance value of a record without a usable distanceValue are whole
    numbers from 0 to 499. *)
Theorem fallback_distance_below_500 (item : JsVal) (index : nat) (w : World) (dv : JsVal) :
  (forall k, 0 <= random_src w k < 1)%Q ->
  Get item "distanceValue" = Normal dv ->
  ToBoolean dv = false ->
  exists h w' shown value,
    normalize item index w = (Normal h, w') /\
    distance h = num_toString (num_of_Z shown) ++ "m" /\
    distanceValue h = JNum (num_of_Z value) /\
    (0 <= shown < 500)%Z /\ (0 <= value < 500)%Z.
Proof.
  intros Hr Hdv Hf.
  destruct (distance_fields_drawn_twice item index w dv Hdv Hf) as (h & w' & Hn & Hv & Hd).
  destruct (draw_range w 0 Hr) as (z0 & Hz0 & Hb0).
  destruct (draw_range w 1 Hr) as (z1 & Hz1 & Hb1).
  exists h, w', z0, z1. rewrite Hd, Hv, Hz0, Hz1. auto.
Qed.

(** X11.  Of two records with nonzero distances, the farther one never gets
    the stronger signal. *)
Theorem farther_is_never_stronger (item1 item2 : JsVal) (i1 i2 : nat) (w1 w2 : World)
        (d1 d2 : Q) :
  Get item1 "distanceValue" = Normal (JNum (Fin d1)) ->
  Get item2 "distanceValue" = Normal (JNum (Fin d2)) ->
  ~ (d1 == 0)%Q -> ~ (d2 == 0)%Q ->
  (d1 <= d2)%Q ->
  exists h1 w1' h2 w2',
    normalize item1 i1 w1 = (Normal h1, w1') /\
    normalize item2 i2 w2 = (Normal h2, w2') /\
    num_le (signalStrength h2) (signalStrength h1).
Proof.
  intros Hdv1 Hdv2 Hz1 Hz2 Hle.
  destruct (normalize_number item1 i1 w1 _ Hdv1) as (h1 & w1' & Hn1 & Hs1).
  destruct (normalize_number item2 i2 w2 _ Hdv2) as (h2 & w2' & Hn2 & Hs2).
  exists h1, w1', h2, w2'. split; [exact Hn1|]. split; [exact Hn2|].
  rewrite Hs1, Hs2. unfold num_or. cbn [num_truthy].
  rewrite (Qeq_bool_false_neq d1 Hz1), (Qeq_bool_false_neq d2 Hz2). cbn [negb].
  rewrite !strength_of_finite. apply num_le_of_Z. now apply spec_strength_antitone.
Qed.

End ResolverEdges.

(** ** Further properties of the view *)

Lemma num_gtb_of_Z (a b : Z) : num_gtb (num_of_Z a) (num_of_Z b) = (b <? a)%Z.
Proof.
  unfold num_gtb, num_of_Z, num_leb, Qle_bool, inject_Z. simpl.
  rewrite !Z.mul_1_r. destruct (Z.leb_spec a b), (Z.ltb_spec b a); auto; lia.
Qed.

Lemma Qfloor_tenth_lt (d : Q) (n : Z) :
  (Qfloor (d / 10) < n)%Z <-> (d < inject_Z (10 * n))%Q.
Proof.
  assert ((d / 10 < inject_Z n)%Q <-> (d < inject_Z (10 * n))%Q) as <-.
  { unfold Qlt, Qdiv, Qmult, Qinv, inject_Z. simpl. lia. }
  split.
  - intros Hlt. apply Qlt_le_trans with (inject_Z (Qfloor (d / 10) + 1)).
    + apply Qlt_floor.
    + rewrite <- Zle_Qle. lia.
  - intros Hlt. rewrite Zlt_Qlt. apply Qle_lt_trans with (d / 10)%Q; [apply Qfloor_le|exact Hlt].
Qed.

Section ViewHandlers.
Context `{Runtime}.

(** X12.  The signal icon of a hotspot normalized from a record with a
    nonzero distance d: high below 200, medium from 200 and below 500, low
    from 500. *)
Theorem icon_by_distance (item : JsVal) (index : nat) (w : World) (d : Q) :
  Get item "distanceValue" = Normal (JNum (Fin d)) ->
  ~ (d == 0)%Q ->
  exists h w',
    normalize item index w = (Normal h, w') /\
    fst (getSignalIcon (signalStrength h))
    = (if Qlt_le_dec d 200 then SignalHigh
       else if Qlt_le_dec d 500 then SignalMedium
       else SignalLow).
Proof.
  intros Hdv Hz.
  destruct (normalize_number item index w _ Hdv) as (h & w' & Hn & Hs).
  exists h, w'. split; [exact Hn|]. rewrite Hs.
  unfold num_or. cbn [num_truthy]. rewrite (Qeq_bool_false_neq d Hz). cbn [negb].
  rewrite strength_of_finite. unfold getSignalIcon.
  change (Fin 80) with (num_of_Z 80). change (Fin 50) with (num_of_Z 50).
  rewrite !num_gtb_of_Z.
  pose proof (Qfloor_tenth_lt d 20) as H200. pose proof (Qfloor_tenth_lt d 50) as H500.
  change (inject_Z (10 * 20)) with 200%Q in H200.
  change (inject_Z (10 * 50)) with 500%Q in H500.
  destruct (Qlt_le_dec d 200) as [Hlt|Hge].
  - apply H200 in Hlt. destruct (Z.ltb_spec 80 (Z.max 30 (100 - Qfloor (d / 10)))); [reflexivity|lia].
  - assert (~ (Qfloor (d / 10) < 20)%Z) as Hn20.
    { intros Hc%H200. exact (Qlt_not_le _ _ Hc Hge). }
    destruct (Z.ltb_spec 80 (Z.max 30 (100 - Qfloor (d / 10)))); [lia|].
    destruct (Qlt_le_dec d 500) as [Hlt5|Hge5].
    + apply H500 in Hlt5.
      destruct (Z.ltb_spec 50 (Z.max 30 (100 - Qfloor (d / 10)))); [reflexivity|lia].
    + assert (~ (Qfloor (d / 10) < 50)%Z) as Hn50.
      { intros Hc%H500. exact (Qlt_not_le _ _ Hc Hge5). }
      destruct (Z.ltb_spec 50 (Z.max 30 (100 - Qfloor (d / 10)))); [lia|reflexivity].
Qed.


(** X14.  A scan that gets a position ends with the list that
    [findNearbyWiFi] returns and without an error: the message of a failed
    fetch is never set.  When the upstream call throws, the list is empty
    and the view shows that no network was found. *)
Theorem scan_with_location (s : AppState) (latitude longitude : JsNum) (w : World) :
  let s' := fst (position_found latitude longitude (startScan true s) w) in
  isScanning s' = false /\
  error s' = None /\
  location s' = Some (latitude, longitude) /\
  selectedHotspot s' = None /\
  fst (findNearbyWiFi latitude longitude w) = Normal (hotspots s') /\
  (forall e, gemini w latitude longitude = Throw e ->
             hotspots s' = [] /\ shows_no_networks s' = true).
Proof.
  cbv zeta. unfold position_found, scan_settled.
  destruct (findNearbyWiFi_outcome latitude longitude w) as (hs & w' & Hrun & Hout).
  rewrite Hrun. cbn. do 5 (split; [reflexivity|]).
  intros e He. destruct Hout; try congruence. split; reflexivity.
Qed.

End ViewHandlers.

(** X15.  Clicking a hotspot clears the retrieval result.  It selects the
    hotspot when no hotspot with its id is selected, and a second click then
    clears the selection; it clears the selection when a hotspot with its
    id is selected.  A third click gives the state of the first. *)
Theorem selection_toggles (spot : WiFiHotspot) (s : AppState) :
  retrievalResult (click_hotspot spot s) = None /\
  (is_selected s spot = false ->
   selectedHotspot (click_hotspot spot s) = Some spot /\
   selectedHotspot (click_hotspot spot (click_hotspot spot s)) = None) /\
  (is_selected s spot = true -> selectedHotspot (click_hotspot spot s) = None) /\
  click_hotspot spot (click_hotspot spot (click_hotspot spot s)) = click_hotspot spot s.
Proof.
  unfold click_hotspot, is_selected. cbn.
  destruct (selectedHotspot s) as [x|]; cbn; rewrite ?String.eqb_refl.
  - destruct (String.eqb (id x) (id spot)); cbn; rewrite ?String.eqb_refl; cbn;
      rewrite ?String.eqb_refl; repeat split; try discriminate; reflexivity.
  - repeat split; try discriminate; reflexivity.
Qed.

(** X16.  When [handleRetrievePassword] has run, the view is no longer
    retrieving, holds a result that is not the failure message, and shows a
    password only for a hotspot that is neither Open nor Public and carries
    one: exactly that password.  The list and the selection are as before. *)
Theorem retrieval_shows_policy_result (spot : WiFiHotspot) (s : AppState) (w : World) :
  let s' := fst (handleRetrievePassword spot s w) in
  isRetrieving s' = false /\
  (exists result, retrievalResult s' = Some result /\
                  message result <> retrieval_failed_message) /\
  shown_password s'
  = (if strict_eq_str (security spot) "Open" || strict_eq_str (security spot) "Public"
     then None
     else if ToBoolean (password spot) then Some (password spot) else None) /\
  selectedHotspot s' = selectedHotspot s /\ hotspots s' = hotspots s.
Proof.
  cbv zeta. unfold handleRetrievePassword, retrieval_settled, retrieval_started,
    retrievePasswordEthically, bind, sleep. cbv beta iota.
  destruct (strict_eq_str (security spot) "Open" || strict_eq_str (security spot) "Public").
  - cbn. repeat split. eexists. split; [reflexivity|]. discriminate.
  - destruct (ToBoolean (password spot)) eqn:Hp; cbn; rewrite ?Hp; repeat split;
      eexists; (split; [reflexivity|]); discriminate.
Qed.

Section ViewStates.
Context `{Runtime}.

(** X17.  In every state that the view can reach: the list is never sorted
    by name; during a scan the list is empty and there is no error; an
    error is never shown together with a list; the selected hotspot is one
    of the list; the message of a failed fetch is never set. *)
Theorem reachable_invariant (s : AppState) : reachable s -> view_invariant s.
Proof.
  induction 1 as [|s e Hreach (Hkey & Hscan & Herr & Hsel & Hfetch) Hen].
  - unfold view_invariant. cbn. repeat split; try discriminate; try congruence.
  - destruct e; cbn [step enabled] in *.
    + destruct geolocation; unfold view_invariant; cbn;
        repeat split; try discriminate; try congruence; auto.
    + unfold view_invariant. cbn. repeat split; auto; apply Hscan; auto.
    + destruct (Hscan Hen) as [Hempty Hnone].
      unfold view_invariant. cbn. repeat split; try discriminate; auto.
    + destruct (Hscan Hen) as [Hempty Hnone]. unfold scan_settled.
      destruct (findNearbyWiFi_outcome latitude longitude w) as (hs & w' & Hrun & _).
      rewrite Hrun. unfold view_invariant. cbn. repeat split; try discriminate; auto.
      * congruence.
      * intros x Hx. apply Hsel in Hx. rewrite Hempty in Hx. destruct Hx.
    + unfold view_invariant. cbn. repeat split; try discriminate; auto; apply Hscan; auto.
    + unfold view_invariant. cbn. repeat split; try discriminate; auto; apply Hscan; auto.
    + unfold view_invariant, click_hotspot. cbn. repeat split; auto; try (apply Hscan; auto).
      intros x. destruct (is_selected s spot); [discriminate|]. now intros [= <-].
    + unfold view_invariant. cbn. repeat split; auto; apply Hscan; auto.
    + unfold retrieval_settled.
      destruct (retrievePasswordEthically spot w) as [[r|e] w']; unfold view_invariant; cbn;
        repeat split; auto; apply Hscan; auto.
    + unfold view_invariant. cbn. repeat split; auto; apply Hscan; auto.
Qed.

(** X18.  A retrieval that settles after another hotspot was clicked shows
    its result under that hotspot: click a private hotspot that carries a
    password, start the retrieval, click a second hotspot, let the retrieval
    settle; the second hotspot is selected and the password of the first is
    shown. *)
Theorem stale_result_shown (s : AppState) (first second : WiFiHotspot) (w : World) :
  In first (hotspots s) -> In second (hotspots s) ->
  id first <> id second ->
  selectedHotspot s = None -> retrievalResult s = None -> isRetrieving s = false ->
  strict_eq_str (security first) "Open" || strict_eq_str (security first) "Public" = false ->
  ToBoolean (password first) = true ->
  let s1 := step s (Hotspot_clicked first) in
  let s2 := step s1 (Retrieval_started first) in
  let s3 := step s2 (Hotspot_clicked second) in
  let s4 := step s3 (Retrieval_settled first w) in
  enabled s (Hotspot_clicked first) /\
  enabled s1 (Retrieval_started first) /\
  enabled s2 (Hotspot_clicked second) /\
  enabled s3 (Retrieval_settled first w) /\
  selectedHotspot s4 = Some second /\
  shown_password s4 = Some (password first).
Proof.
  intros Hfirst Hsecond Hid Hsel Hres Hretr Hsec Hpw. cbv zeta.
  cbn [step enabled]. unfold click_hotspot, retrieval_started, retrieval_settled, is_selected,
    retrievePasswordEthically, bind, sleep. cbv beta iota.
  rewrite Hsel, Hsec, Hpw. cbn. rewrite String.eqb_refl.
  assert (String.eqb (id first) (id second) = false) as -> by now apply String.eqb_neq.
  cbn. rewrite Hpw. repeat split; auto.
Qed.

End ViewStates.

Section SortMore.
Context {A : Type} (comparefn : A -> A -> Completion JsNum) (P : A -> Prop).
Hypothesis comparefn_returns : forall a b, P a -> P b -> exists v, comparefn a b = Normal v.

Lemma insert_ordered_defined (x : A) (l : list A) :
  P x -> Forall P l ->
  exists r, insert_ordered comparefn x l = Normal r /\ Permutation (x :: l) r.
Proof.
  intros Px Pl. induction Pl as [|y t Py Pt IH].
  - exists [x]. split; reflexivity.
  - cbn [insert_ordered]. destruct (comparefn_returns x y Px Py) as (v & ->). cbn [cbind].
    destruct (sign_of v); try (exists (x :: y :: t); split; reflexivity).
    destruct IH as (r & -> & Hperm). cbn [cbind]. exists (y :: r). split; [reflexivity|].
    rewrite perm_swap. now constructor.
Qed.

Lemma sort_stable_defined (l : list A) :
  Forall P l -> exists r, sort_stable comparefn l = Normal r /\ Permutation l r.
Proof.
  intros Pl. induction Pl as [|x t Px Pt IH].
  - exists []. split; reflexivity.
  - destruct IH as (s & Hs & Hperm). cbn [sort_stable]. rewrite Hs. cbn [cbind].
    assert (Forall P s) as Ps by now rewrite <- Hperm.
    destruct (insert_ordered_defined x s Px Ps) as (r & Hr & Hperm').
    exists r. split; [exact Hr|]. now rewrite <- Hperm', <- Hperm.
Qed.

(** Elements that the comparator ties with each other keep their order. *)
Lemma insert_ordered_filter (tied : A -> bool) (x : A) (l r : list A) :
  (forall a b, tied a = true -> tied b = true -> not_after comparefn a b) ->
  insert_ordered comparefn x l = Normal r ->
  filter (fun a => tied a = true) r = filter (fun a => tied a = true) (x :: l).
Proof.
  intros Htied. revert r. induction l as [|y t IH]; intros r; cbn [insert_ordered].
  - now intros [= <-].
  - destruct (comparefn x y) as [v|e] eqn:Hv; [|discriminate]. cbn [cbind].
    destruct (sign_of v) eqn:Hsign; try (now intros [= <-]).
    destruct (insert_ordered comparefn x t) as [r'|e] eqn:Hr; [|discriminate]. cbn [cbind].
    intros [= <-]. specialize (IH r' eq_refl).
    rewrite !filter_cons in *.
    destruct (decide (tied x = true)) as [Hx|Hx], (decide (tied y = true)) as [Hy|Hy];
      try (rewrite IH; reflexivity).
    destruct (Htied x y Hx Hy) as (v' & Hv' & Hle). congruence.
Qed.

Lemma sort_stable_filter (tied : A -> bool) (l r : list A) :
  (forall a b, tied a = true -> tied b = true -> not_after comparefn a b) ->
  sort_stable comparefn l = Normal r ->
  filter (fun a => tied a = true) r = filter (fun a => tied a = true) l.
Proof.
  intros Htied. revert r. induction l as [|x t IH]; intros r; cbn [sort_stable].
  - now intros [= <-].
  - destruct (sort_stable comparefn t) as [s|e] eqn:Hs; [|discriminate]. cbn [cbind].
    intros Hr%(insert_ordered_filter tied); [|exact Htied].
    rewrite Hr, !filter_cons, (IH s eq_refl). reflexivity.
Qed.

End SortMore.

Section SortedView.
Context `{Runtime}.

Lemma returned_comparable (lat lng : JsNum) (w w' : World) (hs : list WiFiHotspot) :
  findNearbyWiFi lat lng w = (Normal hs, w') -> Forall comparable hs.
Proof.
  intros Hrun.
  destruct (findNearbyWiFi_outcome lat lng w) as (hs' & w'' & Hrun' & Hout).
  rewrite Hrun in Hrun'. injection Hrun' as <- _. clear Hrun.
  destruct Hout as [e He | rt Hrt Hfail | rt jm elems hs w1 Hrt Hm Hp Hmap].
  - constructor.
  - repeat constructor; eexists; reflexivity.
  - apply map_from_normalize in Hmap. clear Hrt Hm Hp.
    induction Hmap as [|item h elems hs (i & wa & wb & Hn) _ IH]; [constructor|].
    constructor; [|exact IH].
    destruct (normalize_returns_inv _ _ _ _ _ Hn) as (dv & s & Hdv & Hs).
    destruct (normalize_spec item i wa dv s Hdv Hs)
      as (h' & w3 & m & Hn' & _ & _ & _ & Htrue & Hfalse).
    rewrite Hn in Hn'. injection Hn' as <- _. unfold comparable.
    destruct (ToBoolean dv) eqn:Hb.
    + destruct (Htrue eq_refl) as [-> _]. unfold js_or. rewrite Hb.
      exact (ToString_ToNumber _ _ Hs).
    + destruct (Hfalse eq_refl) as [-> _]. unfold js_or.
      destruct (ToBoolean (JNum (draw wa 1))); eexists; reflexivity.
Qed.

Lemma reachable_comparable (s : AppState) :
  reachable s -> sortKey s <> Key_name /\ Forall comparable (hotspots s).
Proof.
  induction 1 as [|s e Hreach [Hkey Hall] Hen].
  - split; [discriminate|constructor].
  - destruct e; cbn [step]; try (split; [exact Hkey|exact Hall]).
    + destruct geolocation; (split; [exact Hkey|constructor]).
    + unfold scan_settled.
      destruct (findNearbyWiFi latitude longitude w) as [[hs|e] w'] eqn:Hrun; cbn.
      * split; [exact Hkey|]. exact (returned_comparable _ _ _ _ _ Hrun).
      * split; [exact Hkey|exact Hall].
    + split; [discriminate|exact Hall].
    + split; [discriminate|exact Hall].
    + unfold retrieval_settled.
      destruct (retrievePasswordEthically spot w) as [[r|e] w']; (split; [exact Hkey|exact Hall]).
Qed.

(** X19.  In every state that the view can reach, computing the sorted view
    returns, for any hotspots the resolver produced: the comparator of the
    current sort key throws on none of them. *)
Theorem sorted_view_never_throws (s : AppState) (h : Heap) (ref : nat) :
  reachable s ->
  h !! ref = Some (hotspots s) ->
  exists view h' out,
    sortedHotspots ref (sortKey s) h = (Normal view, h') /\
    h' !! view = Some out /\
    Permutation (hotspots s) out.
Proof.
  intros [Hkey Hall]%reachable_comparable Href.
  assert (exists out, sort_stable (compareHotspots (sortKey s)) (hotspots s) = Normal out /\
                      Permutation (hotspots s) out) as (out & Hout & Hperm).
  { apply (sort_stable_defined _ comparable); [|exact Hall].
    intros a b (x & Hx) (y & Hy). unfold compareHotspots.
    destruct (sortKey s); [eauto| |contradiction]. rewrite Hx, Hy. cbn. eauto. }
  destruct (sortedHotspots_run h ref (hotspots s) out (sortKey s) Href Hout)
    as (view & h' & Hrun & Hview & _).
  eauto 10.
Qed.

(** X20.  Hotspots that the sort key ties with each other are displayed in
    the order of the list. *)
Theorem ties_keep_their_order (h : Heap) (ref : nat) (hs : list WiFiHotspot)
        (k : SortKey) (tied : WiFiHotspot -> bool) :
  h !! ref = Some hs ->
  Forall (fun x => sortable k x = true) hs ->
  (k = Key_name -> collation_total) ->
  (forall a b, tied a = true -> tied b = true ->
               sortable k a = true /\ sortable k b = true /\ displayed_order k a b) ->
  exists view h' out,
    sortedHotspots ref k h = (Normal view, h') /\
    h' !! view = Some out /\
    filter (fun x => tied x = true) out = filter (fun x => tied x = true) hs.
Proof.
  intros Href Htyped Hcoll Htied.
  destruct (sort_stable_spec _ _ (compareHotspots_total k Hcoll) hs Htyped)
    as (out & Hout & _ & _).
  destruct (sortedHotspots_run h ref hs out k Href Hout) as (view & h' & Hrun & Hview & _).
  exists view, h', out. split; [exact Hrun|]. split; [exact Hview|].
  apply (sort_stable_filter (compareHotspots k) tied hs out); [|exact Hout].
  intros a b Ha Hb. destruct (Htied a b Ha Hb) as (Hsa & Hsb & Hab).
  now apply not_after_displayed.
Qed.

End SortedView.

(** ** Runs on the sample host *)

Lemma code_order_total : @collation_total sample_host.
Proof.
  intros s t. cbn [localeCompare sample_host]. unfold code_order.
  rewrite (String.compare_antisym t s).
  destruct (String.compare s t); cbn; lia.
Qed.

(** C1, as the specification states it, fails.  A record at distance 0 gets
    the strength 90, not 100; and a record without a distance gets the
    strength 90 whatever distance the hotspot is given (here 450, for which
    the formula gives 55). *)
Lemma zero_distance_strength_is_not_100 :
  (exists h w',
      @normalize sample_host (JObj [("distanceValue", JNum (Fin 0))]) 0 (quiet_world [])
      = (Normal h, w') /\
      signalStrength h = num_of_Z 90 /\
      signalStrength h <> num_of_Z (spec_strength 0)) /\
  (exists h w',
      @normalize sample_host (JObj []) 0 (quiet_world [1 # 10; 9 # 10]) = (Normal h, w') /\
      distanceValue h = JNum (Fin 450) /\
      signalStrength h = num_of_Z 90 /\
      signalStrength h <> num_of_Z (spec_strength 450)).
Proof.
  split; do 2 eexists; (split; [vm_compute; reflexivity|]); cbn; repeat split;
    discriminate.
Qed.

Lemma strength_from_source_distance_witness :
  (exists h w',
      @normalize sample_host (JObj [("distanceValue", JNum (Fin 250))]) 0 (quiet_world [])
      = (Normal h, w') /\
      signalStrength h = num_of_Z (spec_strength 250)) /\
  (exists h w',
      @normalize sample_host (JObj [("name", JStr "Cafe Luna")]) 0 (quiet_world [])
      = (Normal h, w') /\
      signalStrength h = num_of_Z 90) /\
  (exists h w',
      @normalize sample_host (JObj [("distanceValue", JNum (Fin 100))]) 0 (quiet_world [])
      = (Normal h, w') /\
      signalStrength h = num_of_Z 90) /\
  (exists h w',
      @normalize sample_host (JObj [("distanceValue", JNum (Fin 1000))]) 0 (quiet_world [])
      = (Normal h, w') /\
      signalStrength h = num_of_Z 30).
Proof.
  split; [|split; [|split]].
  - apply (proj1 (@strength_from_source_distance sample_host _ 0 (quiet_world [])) 250%Q);
      [reflexivity | discriminate].
  - apply (proj1 (proj2 (@strength_from_source_distance sample_host _ 0 (quiet_world [])))).
    reflexivity.
  - apply (proj1 (proj2 (proj2
             (@strength_from_source_distance sample_host _ 0 (quiet_world []))))).
    reflexivity.
  - apply (proj2 (proj2 (proj2
             (@strength_from_source_distance sample_host _ 0 (quiet_world []))))).
    reflexivity.
Defined.

(** C2 fails on the code.  For the response text "[{}]", whose record has no
    distanceValue, with [Math.random] drawing 0.1 and then 0.9, the hotspot
    shows the distance "50m" and carries the distanceValue 450. *)
Theorem fallback_distance_fields_disagree :
  exists h w',
    @findNearbyWiFi sample_host (Fin 52) (Fin 13)
      (sample_world (Normal (Some "[{}]")) [1 # 10; 9 # 10])
    = (Normal [h], w') /\
    distance h = "50m" /\
    distanceValue h = JNum (Fin 450) /\
    @ToString sample_host (distanceValue h) = Normal "450".
Proof.
  do 2 eexists. split; [vm_compute; reflexivity|]. cbn. repeat split.
Qed.

(** C3, as the specification states it, fails.  A record that supplies the
    signal strength 55 at distance 100 gets the strength 90. *)
Lemma supplied_strength_is_dropped :
  let item := JObj [("signalStrength", JNum (Fin 55)); ("distanceValue", JNum (Fin 100))] in
  exists h w',
    @normalize sample_host item 0 (quiet_world []) = (Normal h, w') /\
    prop item "signalStrength" = JNum (Fin 55) /\
    signalStrength h = Fin 90 /\
    signalStrength h <> Fin 55.
Proof.
  cbv zeta. do 2 eexists. split; [vm_compute; reflexivity|]. cbn. repeat split.
  discriminate.
Qed.

Lemma supplied_strength_is_ignored_witness :
  @normalize sample_host
    (JObj [("signalStrength", JNum (Fin 55)); ("distanceValue", JNum (Fin 100))])
    0 (quiet_world [])
  = @normalize sample_host (JObj [("distanceValue", JNum (Fin 100))]) 0 (quiet_world []).
Proof.
  apply (@supplied_strength_is_ignored sample_host).
  intros k Hk. cbn. destruct (String.eqb_spec k "signalStrength"); [contradiction|reflexivity].
Defined.

Lemma password_sentinel_stripped_witness :
  (exists h w',
      @normalize sample_host
        (JObj [("password", JStr "None"); ("distanceValue", JNum (Fin 120))]) 0 (quiet_world [])
      = (Normal h, w') /\
      password h = JUndefined) /\
  (exists h w',
      @normalize sample_host
        (JObj [("password", JStr "latte2024"); ("distanceValue", JNum (Fin 120))]) 0
        (quiet_world [])
      = (Normal h, w') /\
      password h = JStr "latte2024").
Proof.
  split.
  - destruct (@password_sentinel_stripped sample_host
                (JObj [("password", JStr "None"); ("distanceValue", JNum (Fin 120))])
                0 (quiet_world []) (JNum (Fin 120)) "120" eq_refl eq_refl)
      as (h & w' & Hn & Hnone & _).
    exists h, w'. split; [exact Hn|]. apply Hnone. reflexivity.
  - destruct (@password_sentinel_stripped sample_host
                (JObj [("password", JStr "latte2024"); ("distanceValue", JNum (Fin 120))])
                0 (quiet_world []) (JNum (Fin 120)) "120" eq_refl eq_refl)
      as (h & w' & Hn & _ & Hkept).
    exists h, w'. split; [exact Hn|]. apply Hkept; [reflexivity|discriminate].
Defined.

Lemma findNearbyWiFi_never_fails_witness :
  fst (@findNearbyWiFi sample_host (Fin 52) (Fin 13) (sample_world (Throw RequestError) []))
  = Normal [] /\
  fst (@findNearbyWiFi sample_host (Fin 52) (Fin 13)
         (sample_world (Normal (Some "No networks nearby.")) []))
  = Normal fallback_hotspots /\
  fst (@findNearbyWiFi sample_host (Fin 52) (Fin 13)
         (sample_world (Normal (Some "Found: [oops]")) []))
  = Normal fallback_hotspots /\
  fst (@findNearbyWiFi sample_host (Fin 52) (Fin 13)
         (sample_world (Normal (Some "Found: [null]")) []))
  = Normal fallback_hotspots.
Proof.
  split; [|split; [|split]].
  - apply (proj1 (proj2 (@findNearbyWiFi_never_fails sample_host (Fin 52) (Fin 13) _))
             RequestError).
    reflexivity.
  - apply (proj1 (proj2 (proj2 (@findNearbyWiFi_never_fails sample_host (Fin 52) (Fin 13) _)))
             (Some "No networks nearby.")); [reflexivity|].
    left. apply match_array_None. reflexivity.
  - apply (proj1 (proj2 (proj2 (@findNearbyWiFi_never_fails sample_host (Fin 52) (Fin 13) _)))
             (Some "Found: [oops]")); [reflexivity|].
    right; left. exists "[oops]", SyntaxError. split; reflexivity.
  - apply (proj1 (proj2 (proj2 (@findNearbyWiFi_never_fails sample_host (Fin 52) (Fin 13) _)))
             (Some "Found: [null]")); [reflexivity|].
    right; right. do 4 eexists. split; [reflexivity|]. split; [reflexivity|].
    vm_compute. reflexivity.
Defined.

Lemma retrieval_policy_witness :
  let sample i := nth i sample_hotspots office_hotspot in
  let retrieved hotspot := fst (retrievePasswordEthically hotspot (quiet_world [])) in
  retrieved (sample 0%nat)
  = Normal {| result_password := None; message := public_network_message |} /\
  retrieved (sample 1%nat)
  = Normal {| result_password := None; message := public_network_message |} /\
  retrieved (sample 2%nat)
  = Normal {| result_password := Some (JStr "coffee_lover");
              message := password_retrieved_message |} /\
  retrieved (sample 3%nat)
  = Normal {| result_password := None; message := not_found_message |}.
Proof.
  cbv zeta. split; [|split; [|split]].
  - apply (proj1 (retrieval_policy (nth 0 sample_hotspots office_hotspot) (quiet_world []))).
    right. reflexivity.
  - apply (proj1 (retrieval_policy (nth 1 sample_hotspots office_hotspot) (quiet_world []))).
    left. reflexivity.
  - apply (proj1 (proj2 (retrieval_policy (nth 2 sample_hotspots office_hotspot)
                           (quiet_world [])))).
    + intros [Hs | Hs]; discriminate Hs.
    + reflexivity.
  - apply (proj2 (proj2 (retrieval_policy (nth 3 sample_hotspots office_hotspot)
                           (quiet_world [])))).
    + intros [Hs | Hs]; discriminate Hs.
    + reflexivity.
Defined.

Lemma retrieval_depends_on_security_and_password_witness :
  fst (retrievePasswordEthically renamed_hotspot (quiet_world []))
  = fst (retrievePasswordEthically (nth 2 sample_hotspots office_hotspot)
           (sample_world (Normal None) [1 # 2])).
Proof.
  apply retrieval_depends_on_security_and_password; reflexivity.
Defined.

Lemma sortedHotspots_sorted_witness :
  exists view h' out,
    @sortedHotspots sample_host 5 Key_name sample_heap = (Normal view, h') /\
    h' !! view = Some out /\
    Permutation sample_hotspots out /\
    Sorted (@displayed_order sample_host Key_name) out /\
    (Key_name <> Key_name -> StronglySorted (@displayed_order sample_host Key_name) out).
Proof.
  apply (@sortedHotspots_sorted sample_host sample_heap 5
           sample_hotspots Key_name).
  - reflexivity.
  - repeat constructor.
  - intros _. exact code_order_total.
Defined.

Lemma sortedHotspots_nondestructive_idempotent_witness :
  exists view h' out,
    @sortedHotspots sample_host 5 Key_distanceValue sample_heap = (Normal view, h') /\
    h' !! view = Some out /\
    h' !! 5%nat = Some sample_hotspots /\
    length out = length sample_hotspots /\
    Permutation sample_hotspots out /\
    exists view2 h'',
      @sortedHotspots sample_host view Key_distanceValue h' = (Normal view2, h'') /\
      h'' !! view2 = Some out /\
      h'' !! view = Some out /\
      h'' !! 5%nat = Some sample_hotspots.
Proof.
  apply (@sortedHotspots_nondestructive_idempotent sample_host sample_heap 5
           sample_hotspots Key_distanceValue).
  - reflexivity.
  - repeat constructor.
  - discriminate.
Defined.

(** *** Runs for the further properties *)

Lemma empty_array_gives_empty_list_witness :
  @findNearbyWiFi sample_host (Fin 52) (Fin 13)
    (sample_world (Normal (Some "Nothing here: []")) [])
  = (Normal [], sample_world (Normal (Some "Nothing here: []")) []).
Proof.
  apply (@empty_array_gives_empty_list sample_host (Fin 52) (Fin 13) _
           (Some "Nothing here: []") "[]"); reflexivity.
Defined.

Lemma null_record_discards_all_witness :
  fst (@findNearbyWiFi sample_host (Fin 52) (Fin 13)
         (sample_world (Normal (Some "[null]")) []))
  = Normal fallback_hotspots.
Proof.
  apply (@null_record_discards_all sample_host (Fin 52) (Fin 13) _
           (Some "[null]") "[null]" [JNull]); try reflexivity.
  left. reflexivity.
Defined.

Lemma records_kept_in_order_witness :
  exists hs w',
    @findNearbyWiFi sample_host (Fin 52) (Fin 13)
      (sample_world (Normal (Some "[{},{}]")) [1 # 10; 9 # 10])
    = (Normal hs, w') /\
    length hs = 2%nat /\
    forall i item h, [JObj []; JObj []] !! i = Some item -> hs !! i = Some h ->
      id h = "wifi-" ++ @index_text sample_host i ++ "-"
               ++ @num_toString sample_host (num_of_Z 1700000000000) /\
      name h = js_or (prop item "name") (JStr "Unknown Hotspot") /\
      password h = (if strict_eq_str (prop item "password") "None"
                    then JUndefined else prop item "password").
Proof.
  apply (@records_kept_in_order sample_host (Fin 52) (Fin 13)
           (sample_world (Normal (Some "[{},{}]")) [1 # 10; 9 # 10])
           (Some "[{},{}]") "[{},{}]" [JObj []; JObj []]); try reflexivity.
  repeat constructor; exists JUndefined, "undefined"; split; reflexivity.
Defined.

Lemma returned_ids_distinct_witness :
  exists hs w',
    @findNearbyWiFi sample_host (Fin 52) (Fin 13)
      (sample_world (Normal (Some "[{},{}]")) [1 # 10; 9 # 10])
    = (Normal hs, w') /\ NoDup (map id hs).
Proof.
  apply (@returned_ids_distinct sample_host).
  intros i j Hi Hj. change (length _) with 2%nat in Hi, Hj.
  destruct i as [|[|i]]; [| |lia]; (destruct j as [|[|j]]; [| |lia]);
    (split; [reflexivity|]); vm_compute; congruence.
Defined.

Lemma defaulted_security_follows_password_witness :
  exists h w',
    @normalize sample_host (JObj [("password", JStr "latte2024")]) 0 (quiet_world [])
    = (Normal h, w') /\
    security h = (if ToBoolean (password h) then JStr "WPA2" else JStr "Open") /\
    forall w2,
      fst (retrievePasswordEthically h w2)
      = Normal (if ToBoolean (password h)
                then {| result_password := Some (password h);
                        message := password_retrieved_message |}
                else {| result_password := None; message := public_network_message |}).
Proof.
  apply (@defaulted_security_follows_password sample_host _ 0 (quiet_world [])
           JUndefined "undefined"); reflexivity.
Defined.

Lemma match_spans_first_open_to_last_close_witness :
  ~ bracketed "No networks ] nearby [" /\
  exists pre mid post,
    "[1] and [2]" = "[" ++ mid ++ "]" /\
    "see [1] and [2]!" = pre ++ "[" ++ mid ++ "]" ++ post /\
    occurs "[" pre = false /\ occurs "]" post = false.
Proof.
  split.
  - apply (proj1 (match_spans_first_open_to_last_close "No networks ] nearby [")).
    reflexivity.
  - apply (proj2 (match_spans_first_open_to_last_close "see [1] and [2]!")).
    reflexivity.
Defined.

Lemma console_accounting_witness :
  exists hs w',
    @findNearbyWiFi sample_host (Fin 52) (Fin 13)
      (sample_world (Normal (Some "No networks nearby.")) [])
    = (Normal hs, w') /\
    console w' = [].
Proof.
  destruct (@console_accounting sample_host (Fin 52) (Fin 13)
              (sample_world (Normal (Some "No networks nearby.")) []))
    as (hs & w' & Hrun & _ & Hlog).
  exists hs, w'. split; [exact Hrun|].
  apply (proj1 (Hlog (Some "No networks nearby.") eq_refl)).
  apply match_array_None. reflexivity.
Defined.

Lemma fallback_distance_below_500_witness :
  exists h w' shown value,
    @normalize sample_host (JObj []) 0 (quiet_world [1 # 10; 9 # 10]) = (Normal h, w') /\
    distance h = @num_toString sample_host (num_of_Z shown) ++ "m" /\
    distanceValue h = JNum (num_of_Z value) /\
    (0 <= shown < 500)%Z /\ (0 <= value < 500)%Z.
Proof.
  apply (@fallback_distance_below_500 sample_host (JObj []) 0 (quiet_world [1 # 10; 9 # 10])
           JUndefined); [|reflexivity|reflexivity].
  intros [|[|[|k]]]; cbn; split; unfold Qle, Qlt; cbn; lia.
Defined.

Lemma farther_is_never_stronger_witness :
  exists h1 w1' h2 w2',
    @normalize sample_host (JObj [("distanceValue", JNum (Fin 100))]) 0 (quiet_world [])
    = (Normal h1, w1') /\
    @normalize sample_host (JObj [("distanceValue", JNum (Fin 250))]) 1 (quiet_world [])
    = (Normal h2, w2') /\
    num_le (signalStrength h2) (signalStrength h1).
Proof.
  apply (@farther_is_never_stronger sample_host _ _ 0 1 (quiet_world []) (quiet_world [])
           100%Q 250%Q); try reflexivity; discriminate.
Defined.

Lemma icon_by_distance_witness :
  exists h w',
    @normalize sample_host (JObj [("distanceValue", JNum (Fin 150))]) 0 (quiet_world [])
    = (Normal h, w') /\
    fst (getSignalIcon (signalStrength h))
    = (if Qlt_le_dec 150 200 then SignalHigh
       else if Qlt_le_dec 150 500 then SignalMedium
       else SignalLow).
Proof.
  apply (@icon_by_distance sample_host _ 0 (quiet_world []) 150%Q); [reflexivity|discriminate].
Defined.

Lemma selection_toggles_witness :
  selectedHotspot (click_hotspot office_hotspot listed_state) = Some office_hotspot /\
  selectedHotspot (click_hotspot office_hotspot (click_hotspot office_hotspot listed_state))
  = None.
Proof.
  apply (proj1 (proj2 (selection_toggles office_hotspot listed_state))). reflexivity.
Defined.

Lemma scanned_state_reachable : @reachable sample_host scanned_state.
Proof.
  change scanned_state
    with (@step sample_host
            (@step sample_host
               (@step sample_host initial_state (Scan_started true))
               (Position_received (Fin 52) (Fin 13)))
            (Scan_settled (Fin 52) (Fin 13)
               (sample_world (Normal (Some "[{},{}]")) [1 # 10; 9 # 10]))).
  repeat (apply reachable_step; [|first [exact I | reflexivity]]).
  apply reachable_initial.
Qed.

Lemma reachable_invariant_witness : view_invariant scanned_state.
Proof. apply (@reachable_invariant sample_host). exact scanned_state_reachable. Defined.

Lemma stale_result_shown_witness :
  let first := nth 2 sample_hotspots office_hotspot in
  let s1 := @step sample_host listed_state (Hotspot_clicked first) in
  let s2 := @step sample_host s1 (Retrieval_started first) in
  let s3 := @step sample_host s2 (Hotspot_clicked office_hotspot) in
  let s4 := @step sample_host s3 (Retrieval_settled first (quiet_world [])) in
  @enabled listed_state (Hotspot_clicked first) /\
  @enabled s1 (Retrieval_started first) /\
  @enabled s2 (Hotspot_clicked office_hotspot) /\
  @enabled s3 (Retrieval_settled first (quiet_world [])) /\
  selectedHotspot s4 = Some office_hotspot /\
  shown_password s4 = Some (JStr "coffee_lover").
Proof.
  apply (@stale_result_shown sample_host listed_state
           (nth 2 sample_hotspots office_hotspot) office_hotspot (quiet_world []));
    try reflexivity; try discriminate; cbn; auto.
Defined.

Lemma sorted_view_never_throws_witness :
  exists view h' out,
    @sortedHotspots sample_host 5 (sortKey scanned_state) {[ 5%nat := hotspots scanned_state ]}
    = (Normal view, h') /\
    h' !! view = Some out /\
    Permutation (hotspots scanned_state) out.
Proof.
  apply (@sorted_view_never_throws sample_host scanned_state); [exact scanned_state_reachable|].
  apply lookup_singleton_eq.
Defined.

Lemma strength_92_tied (a b : WiFiHotspot) :
  strength_92 a = true -> strength_92 b = true ->
  num_le (strength_key b) (strength_key a).
Proof.
  unfold strength_92, strength_key, num_or, num_truthy.
  destruct (signalStrength a) as [| |qa|], (signalStrength b) as [| |qb|]; try discriminate.
  intros Ha%Qeq_bool_iff Hb%Qeq_bool_iff.
  rewrite (Qeq_bool_false_neq qa), (Qeq_bool_false_neq qb).
  - cbn. unfold num_le. cbn. apply Qle_bool_iff. rewrite Ha, Hb. apply Qle_refl.
  - rewrite Hb. discriminate.
  - rewrite Ha. discriminate.
Qed.

Lemma ties_keep_their_order_witness :
  exists view h' out,
    @sortedHotspots sample_host 5 Key_signalStrength sample_heap = (Normal view, h') /\
    h' !! view = Some out /\
    filter (fun x => strength_92 x = true) out
    = filter (fun x => strength_92 x = true) sample_hotspots.
Proof.
  apply (@ties_keep_their_order sample_host sample_heap 5 sample_hotspots
           Key_signalStrength strength_92).
  - reflexivity.
  - repeat constructor.
  - discriminate.
  - intros a b Ha Hb. split; [reflexivity|]. split; [reflexivity|].
    exact (strength_92_tied a b Ha Hb).
Defined.
